(** * Dialogue block extractor: a shallow embedding of [extractor.py]

    The development follows the source file top to bottom:
    - [PyStr]: the [str] methods the extractor calls ([splitlines], [strip],
      [rstrip], [lstrip(chars)], [startswith], [endswith], [in], [join]);
    - [Re]: the fragment of the [re] module needed by the two patterns the
      extractor compiles (a backtracking matcher, greedy, first match wins);
    - [Extractor]: [read_text_try], [make_header_re], [extract_from_text]
      and [walk_and_extract], with the two [while] loops kept as loops over
      an index cursor.

    A Python [str] is a sequence of Unicode code points; a code point is an
    [N]. [bytes] is a [list byte]. *)

From Stdlib Require Import String Ascii.
From Stdlib Require Import Strings.Byte.
From Stdlib Require Import List NArith Arith Bool Lia.
Import ListNotations.

Set Implicit Arguments.

Definition codepoint := N.
Definition str := list codepoint.

(** Literals: [u "abc"] is the [str] whose code points are the characters of
    the literal (each an 8-bit character, read as U+0000..U+00FF). *)
Definition u (s : string) : str :=
  List.map N_of_ascii (list_ascii_of_string s).

(** Code points that the source names. *)
Definition LF : codepoint := 10%N.
Definition CR : codepoint := 13%N.
Definition SPACE : codepoint := 32%N.
Definition HASH : codepoint := 35%N.
Definition SEMICOLON : codepoint := 59%N.
Definition UNDERSCORE : codepoint := 95%N.
Definition PIPE : codepoint := 124%N.

(** ** Generic list helpers *)

Section ListHelpers.
Variable A : Type.
Variable p : A -> bool.

Fixpoint take_while (l : list A) : list A :=
  match l with
  | [] => []
  | x :: l' => if p x then x :: take_while l' else []
  end.

Fixpoint drop_while (l : list A) : list A :=
  match l with
  | [] => []
  | x :: l' => if p x then drop_while l' else l
  end.
End ListHelpers.

(** ** Python [str] methods *)

Module PyStr.

(** [Py_UNICODE_ISSPACE]: what [str.strip()] with no argument removes and
    what [\s] matches in a [str] pattern. *)
Definition isspace (c : codepoint) : bool :=
  ((9 <=? c) && (c <=? 13) || (28 <=? c) && (c <=? 32)
   || (c =? 133) || (c =? 160) || (c =? 5760)
   || (8192 <=? c) && (c <=? 8202)
   || (c =? 8232) || (c =? 8233) || (c =? 8239) || (c =? 8287)
   || (c =? 12288))%N.

(** Line boundaries of [str.splitlines()] other than CR and LF, which are
    handled apart because CR LF counts as one boundary. *)
Definition is_linebreak (c : codepoint) : bool :=
  ((c =? 11) || (c =? 12) || (c =? 28) || (c =? 29) || (c =? 30)
   || (c =? 133) || (c =? 8232) || (c =? 8233))%N.

(** [s.splitlines()], line terminators dropped. [cur] holds the current
    line in reverse. A trailing terminator opens no last empty line. *)
Fixpoint splitlines_from (cur : str) (s : str) : list str :=
  match s with
  | [] => match cur with [] => [] | _ => [rev cur] end
  | c :: s' =>
      if (c =? CR)%N then
        match s' with
        | c' :: s'' =>
            if (c' =? LF)%N then rev cur :: splitlines_from [] s''
            else rev cur :: splitlines_from [] s'
        | [] => [rev cur]
        end
      else if ((c =? LF)%N || is_linebreak c) then
        rev cur :: splitlines_from [] s'
      else splitlines_from (c :: cur) s'
  end.

Definition splitlines (s : str) : list str := splitlines_from [] s.

Definition lstrip (s : str) : str := drop_while isspace s.
Definition rstrip (s : str) : str := rev (drop_while isspace (rev s)).
Definition strip (s : str) : str := rstrip (lstrip s).

(** [c in chars] for a single character. *)
Definition char_in (chars : str) (c : codepoint) : bool :=
  existsb (N.eqb c) chars.

(** [s.lstrip(chars)]: drops the longest prefix made of characters of the
    set [chars]. *)
Definition lstrip_chars (chars : str) (s : str) : str :=
  drop_while (char_in chars) s.

Fixpoint startswith (prefix s : str) : bool :=
  match prefix, s with
  | [], _ => true
  | p :: prefix', c :: s' => (c =? p)%N && startswith prefix' s'
  | _ :: _, [] => false
  end.

Definition endswith (suffix s : str) : bool :=
  startswith (rev suffix) (rev s).

(** [sub in s]. *)
Fixpoint contains (sub s : str) : bool :=
  startswith sub s
  || match s with [] => false | _ :: s' => contains sub s' end.

(** [sep.join(parts)]. *)
Fixpoint join (sep : str) (parts : list str) : str :=
  match parts with
  | [] => []
  | [x] => x
  | x :: rest => x ++ sep ++ join sep rest
  end.

(** Truth value of a [str]: non-empty. *)
Definition truthy (s : str) : bool :=
  match s with [] => false | _ => true end.

Definition nonspace (c : codepoint) : bool := negb (isspace c).

End PyStr.

(** ** The interpreter's Unicode tables

    [re] and [str.lower] consult the Unicode character database of the
    running interpreter. Its tables differ between Python versions, so they
    are a parameter of the model: every definition below takes a [ucd], and
    the general theorems hold for every one. *)

Record ucd := {
  (** [Py_UNICODE_ISDECIMAL]: what [\d] matches in a [str] pattern. *)
  Py_UNICODE_ISDECIMAL : codepoint -> bool;
  (** [Py_UNICODE_ISALNUM]: with ['_'], what [\w] matches, hence where [\b]
      holds. *)
  Py_UNICODE_ISALNUM : codepoint -> bool;
  (** The simple case mappings [_sre.unicode_tolower] and its upper-case
      counterpart. *)
  unicode_tolower : codepoint -> codepoint;
  unicode_toupper : codepoint -> codepoint;
  (** [sre_compile._ignorecase_fixes.get(lo, ())]: further characters a
      lower-cased literal stands for. *)
  ignorecase_fixes : codepoint -> list codepoint;
  (** [str.lower()]. *)
  str_lower : str -> str
}.

(** The tables on Basic Latin (U+0000..U+007F), where all versions of the
    database agree. Code points outside it are given no property. The
    concrete scenarios below use Basic Latin text only. *)
Module Latin.
Definition is_upper (c : codepoint) : bool := ((65 <=? c) && (c <=? 90))%N.
Definition is_lower (c : codepoint) : bool := ((97 <=? c) && (c <=? 122))%N.
Definition is_decimal (c : codepoint) : bool := ((48 <=? c) && (c <=? 57))%N.
Definition tolower (c : codepoint) : codepoint :=
  if is_upper c then (c + 32)%N else c.
Definition toupper (c : codepoint) : codepoint :=
  if is_lower c then (c - 32)%N else c.
Definition fixes (lo : codepoint) : list codepoint :=
  if (lo =? 105)%N then [305%N]        (* i, dotless i *)
  else if (lo =? 115)%N then [383%N]   (* s, long s *)
  else [].
End Latin.

Definition basic_latin : ucd := {|
  Py_UNICODE_ISDECIMAL := Latin.is_decimal;
  Py_UNICODE_ISALNUM := fun c =>
    Latin.is_decimal c || Latin.is_upper c || Latin.is_lower c;
  unicode_tolower := Latin.tolower;
  unicode_toupper := Latin.toupper;
  ignorecase_fixes := Latin.fixes;
  str_lower := List.map Latin.tolower
|}.

(** Basic Latin code points and text. *)
Definition basic (c : codepoint) : bool := (c <? 128)%N.
Definition basic_str (s : str) : bool := forallb basic s.

(** A database that has the Basic Latin tables on Basic Latin: there it
    classes digits and word characters and maps case as they do, and no
    Basic Latin character is a further case variant of another. *)
Definition agrees_on_basic_latin (db : ucd) : Prop :=
  forall c, basic c = true ->
    Py_UNICODE_ISDECIMAL db c = Py_UNICODE_ISDECIMAL basic_latin c
    /\ Py_UNICODE_ISALNUM db c = Py_UNICODE_ISALNUM basic_latin c
    /\ unicode_tolower db c = unicode_tolower basic_latin c
    /\ unicode_toupper db c = unicode_toupper basic_latin c
    /\ forallb (fun x => negb (basic x)) (ignorecase_fixes db c) = true.

(** ** The [re] fragment used by the extractor *)

Module Re.

(** Character categories: [.] (no DOTALL flag), [\s], [\d]. *)
Inductive category := ANY | CATEGORY_SPACE | CATEGORY_DIGIT.

(** Parsed patterns. [re.escape(s)] followed by parsing gives the
    literals of [s], so an escaped string is embedded as [literals s]. *)
Inductive pattern :=
| EMPTY
| LITERAL (av : codepoint)
| MAX_REPEAT (min : nat) (k : category)   (* greedy [k*] or [k+] *)
| SEQ (p1 p2 : pattern)
| AT_BEGINNING                            (* [^] *)
| AT_BOUNDARY                             (* [\b] *)
| GROUP (p : pattern).                    (* the one named group *)

Infix "&>" := SEQ (at level 60, right associativity).

Definition literals (s : str) : pattern :=
  fold_right (fun c p => LITERAL c &> p) EMPTY s.

Definition re_escape (s : str) : pattern := literals s.

(** Patterns whose literals are Basic Latin; patterns that consult no
    table of the database when matched without IGNORECASE. *)
Fixpoint basic_pattern (p : pattern) : bool :=
  match p with
  | LITERAL av => basic av
  | SEQ p1 p2 => basic_pattern p1 && basic_pattern p2
  | GROUP p1 => basic_pattern p1
  | _ => true
  end.

Fixpoint table_free (p : pattern) : bool :=
  match p with
  | MAX_REPEAT _ CATEGORY_DIGIT => false
  | AT_BOUNDARY => false
  | SEQ p1 p2 => table_free p1 && table_free p2
  | GROUP p1 => table_free p1
  | _ => true
  end.

(** A compiled pattern: the parsed pattern and the IGNORECASE flag. *)
Record compiled := { pat : pattern; IGNORECASE : bool }.

(** The matcher's position in the subject: the characters before the
    cursor (nearest first), those from the cursor on, and the text of the
    group when it has been closed. *)
Record mstate := {
  before : str;
  after : str;
  group : option str
}.

Definition start (b a : str) : mstate :=
  {| before := b; after := a; group := None |}.

(** The whole subject around the cursor. *)
Definition subject (st : mstate) : str := rev (before st) ++ after st.

Definition advance (j : nat) (st : mstate) : mstate :=
  {| before := rev (firstn j (after st)) ++ before st;
     after := skipn j (after st);
     group := group st |}.

Definition close_group (st st' : mstate) : mstate :=
  {| before := before st';
     after := after st';
     group := Some (rev (firstn (length (before st') - length (before st))
                                (before st'))) |}.

Section Matcher.
Variable db : ucd.
Variable ignorecase : bool.

Definition unicode_iscased (ch : codepoint) : bool :=
  negb (ch =? unicode_tolower db ch)%N
  || negb (ch =? unicode_toupper db ch)%N.

(** A literal [av] of the pattern against the character [ch]. Under
    IGNORECASE a cased literal is compiled to its lower case [lo] and
    compared with the lower case of [ch], with the [fixes] of [lo] as
    alternatives; an uncased literal is compared as it is (the code
    [sre_compile] emits for a literal since Python 3.7). *)
Definition literal_matches (av ch : codepoint) : bool :=
  if ignorecase && unicode_iscased av then
    let lo := unicode_tolower db av in
    let c := unicode_tolower db ch in
    (c =? lo)%N || existsb (N.eqb c) (ignorecase_fixes db lo)
  else (ch =? av)%N.

Definition in_category (k : category) (ch : codepoint) : bool :=
  match k with
  | ANY => negb (ch =? LF)%N
  | CATEGORY_SPACE => PyStr.isspace ch
  | CATEGORY_DIGIT => Py_UNICODE_ISDECIMAL db ch
  end.

Definition is_word (ch : codepoint) : bool :=
  Py_UNICODE_ISALNUM db ch || (ch =? UNDERSCORE)%N.

(** [\b]: exactly one of the characters around the cursor is a word
    character; the ends of the subject count as non-word. *)
Definition at_boundary (st : mstate) : bool :=
  xorb (match before st with c :: _ => is_word c | [] => false end)
       (match after st with c :: _ => is_word c | [] => false end).

(** All ways [p] matches at [st], in the order the backtracking matcher
    tries them: a greedy repeat takes the longest run first and gives
    back one character at a time. *)
Fixpoint matches (p : pattern) (st : mstate) : list mstate :=
  match p with
  | EMPTY => [st]
  | LITERAL av =>
      match after st with
      | ch :: _ => if literal_matches av ch then [advance 1 st] else []
      | [] => []
      end
  | MAX_REPEAT min k =>
      let n := length (take_while (in_category k) (after st)) in
      List.map (fun j => advance j st) (rev (seq min (n + 1 - min)))
  | SEQ p1 p2 => flat_map (matches p2) (matches p1 st)
  | AT_BEGINNING => match before st with [] => [st] | _ => [] end
  | AT_BOUNDARY => if at_boundary st then [st] else []
  | GROUP p1 => List.map (close_group st) (matches p1 st)
  end.

(** The first way, if any. *)
Definition first_match (p : pattern) (st : mstate) : option mstate :=
  hd_error (matches p st).

(** Scan for the first position from which [p] matches. *)
Fixpoint search_from (p : pattern) (b a : str) : option mstate :=
  match first_match p (start b a) with
  | Some st => Some st
  | None =>
      match a with
      | [] => None
      | c :: a' => search_from p (c :: b) a'
      end
  end.

(** What it means for [p] to match between two positions: the text
    consumed lies between them. [matches] enumerates exactly these
    ([matches_iff] below). *)
Fixpoint Matches (p : pattern) (st st' : mstate) : Prop :=
  match p with
  | EMPTY => st' = st
  | LITERAL av =>
      exists ch,
        after st = ch :: after st' /\ literal_matches av ch = true
        /\ before st' = ch :: before st /\ group st' = group st
  | MAX_REPEAT min k =>
      exists w,
        after st = w ++ after st' /\ forallb (in_category k) w = true
        /\ min <= length w
        /\ before st' = rev w ++ before st /\ group st' = group st
  | SEQ p1 p2 => exists mid, Matches p1 st mid /\ Matches p2 mid st'
  | AT_BEGINNING => before st = [] /\ st' = st
  | AT_BOUNDARY => at_boundary st = true /\ st' = st
  | GROUP p1 => exists st1, Matches p1 st st1 /\ st' = close_group st st1
  end.
End Matcher.

(** [r.match(s)]: a match anchored at the start of [s]. *)
Definition re_match (db : ucd) (r : compiled) (s : str) : option mstate :=
  first_match db (IGNORECASE r) (pat r) (start [] s).

(** [r.search(s)]. *)
Definition re_search (db : ucd) (r : compiled) (s : str) : option mstate :=
  search_from db (IGNORECASE r) (pat r) [] s.

End Re.

(** ** The extractor *)

Module Extractor.
Import PyStr Re.

(** *** Encodings *)

Inductive encoding :=
| utf_8 | utf_8_sig | utf_16 | utf_16le | utf_16be | gbk | latin_1.

Definition ENCODINGS : list encoding :=
  [utf_8; utf_8_sig; utf_16; utf_16le; utf_16be; gbk; latin_1].

(** [b.decode('latin-1')]: every byte is the code point of its value. *)
Definition latin_1_decode (b : list byte) : str := List.map Byte.to_N b.

(** A raised exception, as opposed to a returned value. *)
Inductive result (A : Type) :=
| Ok (a : A)
| Raise
| Diverge.   (* a [while] loop of the model ran out of fuel *)
Arguments Raise {A}.
Arguments Diverge {A}.

(** One dialogue block, the dict with keys ['id'], ['orig'], ['trans']. *)
Record item := { id : str; orig : str; trans : str }.

(** What the program takes from its host: the codecs other than latin-1
    ([None] when [decode] raises), the directory walk and the file reads
    ([None] when [open] or [read] raises). *)
Record host := {
  codec : encoding -> list byte -> option str;
  os_walk : str -> list (str * list str * list str);
  os_path_join : str -> str -> str;
  open_read : str -> option (list byte)
}.

Section Program.
Variable db : ucd.
Variable os : host.

(** [b.decode(e)], [None] when it raises. *)
Definition decode (e : encoding) (b : list byte) : option str :=
  match e with
  | latin_1 => Some (latin_1_decode b)
  | _ => codec os e b
  end.

(** The [for e in ENCODINGS] loop of [read_text_try]; [None] is the
    pair [(None, None)]. *)
Fixpoint decode_first (b : list byte) (encodings : list encoding)
  : option (str * encoding) :=
  match encodings with
  | [] => None
  | e :: rest =>
      match decode e b with
      | Some text => Some (text, e)
      | None => decode_first b rest
      end
  end.

Definition read_text_try (path : str) : result (option (str * encoding)) :=
  match open_read os path with
  | None => Raise
  | Some b => Ok (decode_first b ENCODINGS)
  end.

(** *** Patterns *)

(** [r'^#\s*(?P<id>.+_' + re.escape(name) + r'\d+)\b'], IGNORECASE. *)
Definition make_header_re (name : str) : compiled :=
  {| pat := AT_BEGINNING &> LITERAL HASH &> MAX_REPEAT 0 CATEGORY_SPACE
            &> GROUP (MAX_REPEAT 1 ANY &> LITERAL UNDERSCORE
                      &> re_escape name &> MAX_REPEAT 1 CATEGORY_DIGIT)
            &> AT_BOUNDARY;
     IGNORECASE := true |}.

(** [r"\|\s*#\s*" + re.escape(block_id) + r"\s*\|"]. *)
Definition make_marker_re (block_id : str) : compiled :=
  {| pat := LITERAL PIPE &> MAX_REPEAT 0 CATEGORY_SPACE &> LITERAL HASH
            &> MAX_REPEAT 0 CATEGORY_SPACE &> re_escape block_id
            &> MAX_REPEAT 0 CATEGORY_SPACE &> LITERAL PIPE;
     IGNORECASE := false |}.

(** [m.group('id')]. *)
Definition group_id (m : mstate) : str :=
  match group m with Some g => g | None => [] end.

(** *** Classifying the lines of a block *)

(** [ln.strip().startswith(';')]. *)
Definition is_commentary (ln : str) : bool :=
  startswith [SEMICOLON] (strip ln).

(** [ln.lstrip('; ').rstrip()]. *)
Definition strip_marker (ln : str) : str :=
  rstrip (lstrip_chars [SEMICOLON; SPACE] ln).

Definition orig_lines_raw (block_lines : list str) : list str :=
  List.map strip_marker (filter is_commentary block_lines).

Definition marker_found (block_id ln : str) : bool :=
  match re_search db (make_marker_re block_id) ln with
  | Some _ => true
  | None => false
  end.

Definition orig_lines (block_id : str) (block_lines : list str) : list str :=
  filter (fun ln => negb (marker_found block_id ln))
         (orig_lines_raw block_lines).

Definition trans_lines (block_lines : list str) : list str :=
  List.map rstrip
           (filter (fun ln => negb (is_commentary ln) && truthy (strip ln))
                   block_lines).

Definition make_item (block_id : str) (block_lines : list str) : item :=
  {| id := block_id;
     orig := strip (join [LF] (orig_lines block_id block_lines));
     trans := strip (join [LF] (trans_lines block_lines)) |}.

(** *** The two loops of [extract_from_text]

    Both are [while] loops over the cursor [i]; they are run with fuel,
    and [None] means the fuel ran out before the loop condition failed. *)

(** [while i < len(lines) and not lines[i].startswith('# ')]. *)
Fixpoint collect_block (fuel : nat) (lines : list str) (i : nat)
         (block_lines : list str) : option (nat * list str) :=
  match nth_error lines i with
  | None => Some (i, block_lines)
  | Some ln =>
      if startswith [HASH; SPACE] ln then Some (i, block_lines)
      else match fuel with
           | O => None
           | S fuel' =>
               collect_block fuel' lines (S i) (block_lines ++ [ln])
           end
  end.

(** The body of the outer loop at cursor [i], where [ln] is [lines[i]]:
    the new cursor and the new [results]. *)
Definition loop_body (name : str) (lines : list str) (i : nat)
           (results : list item) (ln : str) : option (nat * list item) :=
  match re_match db (make_header_re name) ln with
  | Some m =>
      let block_id := strip (group_id m) in
      match collect_block (length lines) lines (S i) [] with
      | Some (i', block_lines) =>
          Some (i', results ++ [make_item block_id block_lines])
      | None => None
      end
  | None => Some (S i, results)
  end.

(** [while i < len(lines)]. *)
Fixpoint scan (fuel : nat) (name : str) (lines : list str) (i : nat)
         (results : list item) : option (list item) :=
  match nth_error lines i with
  | None => Some results
  | Some ln =>
      match fuel with
      | O => None
      | S fuel' =>
          match loop_body name lines i results ln with
          | Some (i', results') => scan fuel' name lines i' results'
          | None => None
          end
      end
  end.

Definition extract_from_text (text name : str) : option (list item) :=
  let lines := splitlines text in
  scan (length lines) name lines 0 [].

(** *** The directory walk *)

Definition skip_dirs : list str :=
  [u "\.git"; u "\debug"; u "\system"; u "\build"].

Definition text_extensions : list str :=
  [u ".bytes"; u ".txt"; u ".script"; u ".csv"; u ".json"].

(** [any(skip in dirpath.lower() for skip in [...])]. *)
Definition skipped_dir (dirpath : str) : bool :=
  existsb (fun skip => contains skip (str_lower db dirpath)) skip_dirs.

(** [not fn.lower().endswith((...)) and '.' in fn]. *)
Definition skipped_file (fn : str) : bool :=
  negb (existsb (fun ext => endswith ext (str_lower db fn))
                text_extensions)
  && contains (u ".") fn.

(** [item['trans'] or item['orig']]. *)
Definition keep (it : item) : bool :=
  truthy (trans it) || truthy (orig it).

(** [for fn in files]. *)
Fixpoint scan_files (name dirpath : str) (files : list str)
         (out : list item) : result (list item) :=
  match files with
  | [] => Ok out
  | fn :: files' =>
      if skipped_file fn then scan_files name dirpath files' out
      else
        match read_text_try (os_path_join os dirpath fn) with
        | Raise => Raise
        | Diverge => Diverge
        | Ok None => scan_files name dirpath files' out
        | Ok (Some (text, _)) =>
            match extract_from_text text name with
            | None => Diverge
            | Some items =>
                scan_files name dirpath files' (out ++ filter keep items)
            end
        end
  end.

(** [for dirpath, dirs, files in os.walk(root)]. *)
Fixpoint walk_dirs (name : str) (entries : list (str * list str * list str))
         (out : list item) : result (list item) :=
  match entries with
  | [] => Ok out
  | (dirpath, _, files) :: entries' =>
      if skipped_dir dirpath then walk_dirs name entries' out
      else
        match scan_files name dirpath files out with
        | Ok out' => walk_dirs name entries' out'
        | r => r
        end
  end.

Definition walk_and_extract (root name : str) : result (list item) :=
  walk_dirs name (os_walk os root) [].

(** *** The properties in the words of their description *)

(** A line of the header form: the comment marker, optional whitespace,
    then at least one character, an underscore, the name in any case,
    at least one decimal digit, and a word boundary after the digits. *)
Definition header_shape (name line : str) : Prop :=
  exists ws body nm ds tail,
    line = HASH :: ws ++ body ++ UNDERSCORE :: nm ++ ds ++ tail
    /\ forallb isspace ws = true
    /\ body <> [] /\ forallb (fun c => negb (c =? LF)%N) body = true
    /\ Forall2 (fun av ch => literal_matches db true av ch = true) name nm
    /\ ds <> [] /\ forallb (Py_UNICODE_ISDECIMAL db) ds = true
    /\ xorb (is_word db (last ds 0%N))
            (match tail with c :: _ => is_word db c | [] => false end)
       = true.

(** The blocks of a list of lines: each one starts after a line that
    the header pattern matches and holds the lines up to, and not
    including, the next line that begins with ['# '], or to the end;
    the scan resumes at that line. A block is its id and its lines. *)
Inductive Blocks (name : str) : list str -> list (str * list str) -> Prop :=
| Blocks_end : Blocks name [] []
| Blocks_skip ln rest bs :
    re_match db (make_header_re name) ln = None ->
    Blocks name rest bs ->
    Blocks name (ln :: rest) bs
| Blocks_header ln rest m block_lines rest' bs :
    re_match db (make_header_re name) ln = Some m ->
    rest = block_lines ++ rest' ->
    Forall (fun l => startswith [HASH; SPACE] l = false) block_lines ->
    match rest' with
    | [] => True
    | l :: _ => startswith [HASH; SPACE] l = true
    end ->
    Blocks name rest' bs ->
    Blocks name (ln :: rest) ((strip (group_id m), block_lines) :: bs).

Definition item_of_block (b : str * list str) : item :=
  make_item (fst b) (snd b).

(** A line that the inner loop collects: one that does not begin with
    ['# ']. *)
Definition in_block (ln : str) : bool := negb (startswith [HASH; SPACE] ln).

(** What [ln.lstrip('; ').rstrip()] removes and what it leaves. *)
Definition marker_stripped (ln c : str) : Prop :=
  exists lead trail,
    ln = lead ++ c ++ trail
    /\ Forall (fun x => x = SEMICOLON \/ x = SPACE) lead
    /\ forallb isspace trail = true
    /\ match c with
       | [] => True
       | x :: _ => x <> SEMICOLON /\ x <> SPACE
       end
    /\ match rev c with [] => True | x :: _ => isspace x = false end.

(** The text [|#<id>|]. *)
Definition marker_text (block_id : str) : str :=
  PIPE :: HASH :: block_id ++ [PIPE].

(** The records a file contributes: those of its text that pass the
    filter, when the file is read. *)
Definition file_yields (name dirpath fn : str) (it : item) : Prop :=
  skipped_file fn = false
  /\ exists text enc items,
       read_text_try (os_path_join os dirpath fn) = Ok (Some (text, enc))
       /\ extract_from_text text name = Some items
       /\ In it items /\ keep it = true.

End Program.
End Extractor.

(** ** Scenarios *)

Import PyStr.

(** The text of a file whose lines are [lines], separated by LF. *)
Definition text_of (lines : list str) : str := join [LF] lines.

(** A host with a single directory that holds the single file [a.txt]; of
    its codecs only utf-8 is installed, and it is given 7-bit input only. *)
Definition sample_file : list byte :=
  list_byte_of_string "# A_Sherry1" ++ [x0a]
  ++ list_byte_of_string "; hi" ++ [x0a]
  ++ list_byte_of_string "ho" ++ [x0a]
  ++ list_byte_of_string "# B_Sherry2".

Definition sample_host : Extractor.host := {|
  Extractor.codec := fun e b =>
    match e with
    | Extractor.utf_8 =>
        if forallb (fun x => (Byte.to_N x <? 128)%N) b
        then Some (List.map Byte.to_N b) else None
    | _ => None
    end;
  Extractor.os_walk := fun root => [(root, [], [u "a.txt"])];
  Extractor.os_path_join := fun dirpath fn => dirpath ++ u "/" ++ fn;
  Extractor.open_read := fun _ => Some sample_file
|}.


(** A host like [sample_host] whose directory also holds [b.bin], a file
    that the extension filter skips and that may be unreadable. *)
Definition mixed_host (readable : bool) : Extractor.host := {|
  Extractor.codec := Extractor.codec sample_host;
  Extractor.os_walk := fun root => [(root, [], [u "a.txt"; u "b.bin"])];
  Extractor.os_path_join := Extractor.os_path_join sample_host;
  Extractor.open_read := fun path =>
    if endswith (u ".bin") path
    then (if readable then Some [x00] else None)
    else Some sample_file
|}.

(** ** The serializers and the aggregation of [main]

    [save_jsonl] and [save_csv] are embedded as the text they hand to
    [f.write], in order; opening the file, encoding the text and translating
    newlines are the host's. *)

Module Output.
Import PyStr Extractor.

Definition QUOTE : codepoint := 34%N.
Definition BACKSLASH : codepoint := 92%N.
Definition COMMA : codepoint := 44%N.

(** One lower-case hexadecimal digit. *)
Definition hex_digit (n : N) : codepoint :=
  if (n <? 10)%N then (48 + n)%N else (87 + n)%N.

(** [json.encoder.ESCAPE_DCT] with [ensure_ascii=False]: the quote, the
    backslash and the control characters below U+0020 are escaped, every
    other character is written as it is. *)
Definition escape_char (c : codepoint) : str :=
  if (c =? QUOTE)%N then [BACKSLASH; QUOTE]
  else if (c =? BACKSLASH)%N then [BACKSLASH; BACKSLASH]
  else if (c =? 8)%N then [BACKSLASH; 98%N]      (* \b *)
  else if (c =? 12)%N then [BACKSLASH; 102%N]    (* \f *)
  else if (c =? LF)%N then [BACKSLASH; 110%N]    (* \n *)
  else if (c =? CR)%N then [BACKSLASH; 114%N]    (* \r *)
  else if (c =? 9)%N then [BACKSLASH; 116%N]     (* \t *)
  else if (c <? 32)%N then
    [BACKSLASH; 117%N; 48%N; 48%N; hex_digit (c / 16); hex_digit (c mod 16)]
  else [c].

(** [json.encoder.encode_basestring]. *)
Definition encode_basestring (s : str) : str :=
  QUOTE :: flat_map escape_char s ++ [QUOTE].

(** [json.dumps(it, ensure_ascii=False)] for the dict of a record, whose
    keys are in insertion order and whose separators are [', '] and
    [': ']. *)
Definition json_dumps (it : item) : str :=
  u "{" ++ encode_basestring (u "id") ++ u ": " ++ encode_basestring (id it)
  ++ u ", " ++ encode_basestring (u "orig") ++ u ": "
  ++ encode_basestring (orig it)
  ++ u ", " ++ encode_basestring (u "trans") ++ u ": "
  ++ encode_basestring (trans it) ++ u "}".

(** The text [save_jsonl] writes. *)
Definition save_jsonl (items : list item) : str :=
  flat_map (fun it => json_dumps it ++ [LF]) items.

(** The [csv] writer of the default dialect (the comma as delimiter, the
    double quote as quote character, doubled quotes, minimal quoting, line
    terminator CR LF): a field is quoted when it holds the delimiter, the
    quote or a character of the line terminator. *)
Definition csv_special (c : codepoint) : bool :=
  ((c =? COMMA) || (c =? QUOTE) || (c =? CR) || (c =? LF))%N.

(** A quote inside a quoted field is doubled. *)
Definition double_quote (c : codepoint) : str :=
  if (c =? QUOTE)%N then [QUOTE; QUOTE] else [c].

Definition csv_field (s : str) : str :=
  if existsb csv_special s then QUOTE :: flat_map double_quote s ++ [QUOTE]
  else s.

(** [w.writerow] on the three fields of a row. *)
Definition csv_row (a b c : str) : str :=
  csv_field a ++ [COMMA] ++ csv_field b ++ [COMMA] ++ csv_field c ++ [CR; LF].

(** The text [save_csv] writes: the header row, then one row a record. *)
Definition save_csv (items : list item) : str :=
  csv_row (u "id") (u "orig") (u "trans")
  ++ flat_map (fun it => csv_row (id it) (orig it) (trans it)) items.

Section Main.
Variable db : ucd.
Variable os : host.


(** [for r in roots: items.extend(walk_and_extract(r, args.name))]. *)
Fixpoint collect_items (name : str) (roots : list str) (items : list item)
  : result (list item) :=
  match roots with
  | [] => Ok items
  | r :: roots' =>
      match walk_and_extract db os r name with
      | Ok found => collect_items name roots' (items ++ found)
      | Raise => Raise
      | Diverge => Diverge
      end
  end.
End Main.

End Output.

(** ** Notions used by the further properties *)

Module Props.
Import PyStr Re Extractor Output.

(** [l1] is [l2] with some elements left out, the order kept. *)
Inductive subseq (A : Type) : list A -> list A -> Prop :=
| subseq_nil l : subseq [] l
| subseq_skip x l1 l2 : subseq l1 l2 -> subseq l1 (x :: l2)
| subseq_take x l1 l2 : subseq l1 l2 -> subseq (x :: l1) (x :: l2).

(** The id a line gives when the header pattern matches it. *)
Definition header_id (db : ucd) (name ln : str) : option str :=
  option_map (fun m => strip (group_id m)) (re_match db (make_header_re name) ln).

(** The ids of the lines that the header pattern matches, in order. *)
Definition header_ids (db : ucd) (name : str) (lines : list str) : list str :=
  flat_map (fun ln => match header_id db name ln with
                      | Some i => [i]
                      | None => []
                      end) lines.

(** No whitespace at either end. *)
Definition trimmed (s : str) : Prop :=
  match s with [] => True | c :: _ => isspace c = false end
  /\ match rev s with [] => True | c :: _ => isspace c = false end.

(** The characters at which [str.splitlines] breaks a line. *)
Definition line_boundary (c : codepoint) : bool :=
  (c =? CR)%N || (c =? LF)%N || is_linebreak c.

(** A character that is no line boundary. *)
Definition inline (c : codepoint) : bool := negb (line_boundary c).

(** A text that holds none of the three line boundaries that JSON leaves
    unescaped (U+0085, U+2028, U+2029); a record whose fields are such. *)
Definition no_raw_boundary (s : str) : Prop :=
  forall c, In c s -> line_boundary c = false \/ (c <? 32)%N = true.

Definition clean_item (it : item) : Prop :=
  no_raw_boundary (id it) /\ no_raw_boundary (orig it)
  /\ no_raw_boundary (trans it).

(** The paths the walk from [root] opens: those of the files that pass the
    extension filter, in the directories that are not skipped. *)
Definition scanned (db : ucd) (os : host) (root path : str) : Prop :=
  exists dirpath dirs files fn,
    In (dirpath, dirs, files) (os_walk os root)
    /\ skipped_dir db dirpath = false
    /\ In fn files
    /\ skipped_file db fn = false
    /\ path = os_path_join os dirpath fn.

(** The record [it] is one of the records of the decoded text of a file
    that the walk from [root] opens. *)
Definition extracted_from (db : ucd) (os : host) (name root : str) (it : item)
  : Prop :=
  exists path b text enc recs,
    scanned db os root path
    /\ open_read os path = Some b
    /\ decode_first os b ENCODINGS = Some (text, enc)
    /\ extract_from_text db text name = Some recs
    /\ In it recs.

(** *** Readers of the written text

    They read back what [encode_basestring] and [csv_field] write, and
    serve to show that the written text determines the records. *)

Definition unhex (c : codepoint) : N :=
  if (c <? 58)%N then (c - 48)%N else (c - 87)%N.

(** The character a two-character escape stands for. *)
Definition unescape (e : codepoint) : codepoint :=
  if (e =? 98)%N then 8%N
  else if (e =? 102)%N then 12%N
  else if (e =? 110)%N then LF
  else if (e =? 114)%N then CR
  else if (e =? 116)%N then 9%N
  else e.

Definition cons_fst (c : codepoint) (r : str * str) : str * str :=
  (c :: fst r, snd r).

(** Reads a JSON string after its opening quote: the string and the text
    after its closing quote. *)
Fixpoint scanstring (s : str) : option (str * str) :=
  match s with
  | [] => None
  | c :: s1 =>
      if (c =? QUOTE)%N then Some ([], s1)
      else if (c =? BACKSLASH)%N then
        match s1 with
        | [] => None
        | e :: s2 =>
            if (e =? 117)%N then
              match s2 with
              | _ :: _ :: h1 :: h2 :: s3 =>
                  option_map (cons_fst (16 * unhex h1 + unhex h2)%N)
                             (scanstring s3)
              | _ => None
              end
            else option_map (cons_fst (unescape e)) (scanstring s2)
        end
      else option_map (cons_fst c) (scanstring s1)
  end.

(** Reads a quoted CSV field after its opening quote. *)
Fixpoint unquote (s : str) : option (str * str) :=
  match s with
  | [] => None
  | c :: s1 =>
      if (c =? QUOTE)%N then
        match s1 with
        | c2 :: s2 =>
            if (c2 =? QUOTE)%N then option_map (cons_fst QUOTE) (unquote s2)
            else Some ([], s1)
        | [] => Some ([], [])
        end
      else option_map (cons_fst c) (unquote s1)
  end.

(** Reads one CSV field: the field and the text from its delimiter on. *)
Definition parse_field (s : str) : option (str * str) :=
  match s with
  | c :: s1 =>
      if (c =? QUOTE)%N then unquote s1
      else Some (take_while (fun x => negb (csv_special x)) s,
                 drop_while (fun x => negb (csv_special x)) s)
  | [] => Some ([], [])
  end.

(** The text after the prefix [p], when the text begins with it. *)
Fixpoint after_prefix (p s : str) : option str :=
  match p, s with
  | [], _ => Some s
  | x :: p', c :: s' => if (c =? x)%N then after_prefix p' s' else None
  | _ :: _, [] => None
  end.

(** The punctuation before each of the three values of a record. *)
Definition open_id : str :=
  u "{" ++ encode_basestring (u "id") ++ u ": " ++ [QUOTE].
Definition open_orig : str :=
  u ", " ++ encode_basestring (u "orig") ++ u ": " ++ [QUOTE].
Definition open_trans : str :=
  u ", " ++ encode_basestring (u "trans") ++ u ": " ++ [QUOTE].

(** Reads the JSON text of one record: the record and the text after it. *)
Definition read_item (s : str) : option (item * str) :=
  match after_prefix open_id s with
  | None => None
  | Some s1 =>
  match scanstring s1 with
  | None => None
  | Some (i, s2) =>
  match after_prefix open_orig s2 with
  | None => None
  | Some s3 =>
  match scanstring s3 with
  | None => None
  | Some (o, s4) =>
  match after_prefix open_trans s4 with
  | None => None
  | Some s5 =>
  match scanstring s5 with
  | None => None
  | Some (t, s6) =>
  match after_prefix (u "}") s6 with
  | None => None
  | Some s7 => Some ({| id := i; orig := o; trans := t |}, s7)
  end end end end end end end.

(** Reads one CSV row of three fields: the fields and the text after the
    line terminator. *)
Definition read_row (s : str) : option (str * str * str * str) :=
  match parse_field s with
  | None => None
  | Some (a, s1) =>
  match after_prefix [COMMA] s1 with
  | None => None
  | Some s2 =>
  match parse_field s2 with
  | None => None
  | Some (b, s3) =>
  match after_prefix [COMMA] s3 with
  | None => None
  | Some s4 =>
  match parse_field s4 with
  | None => None
  | Some (c, s5) =>
  match after_prefix [CR; LF] s5 with
  | None => None
  | Some s6 => Some (a, b, c, s6)
  end end end end end end.

End Props.

(** * Facts *)

(** ** Lists *)

Section ListFacts.
Variable A : Type.
Variable p : A -> bool.

Lemma take_drop_while l : take_while p l ++ drop_while p l = l.
Proof.
  induction l as [|x l IH]; simpl; [reflexivity|].
  destruct (p x); simpl; [now rewrite IH | reflexivity].
Qed.

Lemma take_while_all l : forallb p (take_while p l) = true.
Proof.
  induction l as [|x l IH]; simpl; [reflexivity|].
  destruct (p x) eqn:E; simpl; [now rewrite E | reflexivity].
Qed.

Lemma drop_while_head l x r : drop_while p l = x :: r -> p x = false.
Proof.
  induction l as [|y l IH]; simpl; [discriminate|].
  destruct (p y) eqn:E; [exact IH|].
  intros H; injection H as -> _; exact E.
Qed.

Lemma drop_while_nil l : drop_while p l = [] <-> forallb p l = true.
Proof.
  induction l as [|x l IH]; simpl; [tauto|].
  destruct (p x); simpl; [exact IH|]. split; discriminate.
Qed.

Lemma take_while_app l r :
  forallb p l = true ->
  take_while p (l ++ r) = l ++ take_while p r.
Proof.
  induction l as [|x l IH]; simpl; [reflexivity|].
  intros H; apply andb_true_iff in H as [Hx Hl].
  now rewrite Hx, IH.
Qed.

Lemma drop_while_app l r :
  forallb p l = true ->
  drop_while p (l ++ r) = drop_while p r.
Proof.
  induction l as [|x l IH]; simpl; [reflexivity|].
  intros H; apply andb_true_iff in H as [Hx Hl].
  now rewrite Hx, IH.
Qed.

Lemma take_while_stop l :
  match l with [] => True | x :: _ => p x = false end ->
  take_while p l = [].
Proof. destruct l as [|x l]; simpl; [reflexivity|]. now intros ->. Qed.

Lemma drop_while_stop l :
  match l with [] => True | x :: _ => p x = false end ->
  drop_while p l = l.
Proof. destruct l as [|x l]; simpl; [reflexivity|]. now intros ->. Qed.

Lemma take_while_length_firstn l j :
  j <= length (take_while p l) ->
  forallb p (firstn j l) = true /\ j <= length l.
Proof.
  revert j; induction l as [|x l IH]; intros j; simpl.
  - intros H. replace j with 0 by lia. now split.
  - destruct (p x) eqn:E; simpl; intros H.
    + destruct j as [|j]; simpl; [split; [reflexivity | lia]|].
      destruct (IH j) as [H1 H2]; [lia|]. rewrite E, H1. split; [reflexivity | lia].
    + replace j with 0 by lia. split; [reflexivity | lia].
Qed.

Lemma take_while_length_app w r :
  forallb p w = true -> length w <= length (take_while p (w ++ r)).
Proof.
  intros H. rewrite take_while_app by exact H. rewrite length_app. lia.
Qed.

Lemma skipn_nth_error (l : list A) i :
  skipn i l = match nth_error l i with
              | Some x => x :: skipn (S i) l
              | None => []
              end.
Proof.
  revert i; induction l as [|x l IH]; intros [|i]; simpl; try reflexivity.
  rewrite IH. destruct (nth_error l i); [|reflexivity].
  destruct l; reflexivity.
Qed.

Lemma skipn_add (l : list A) i j : skipn (i + j) l = skipn j (skipn i l).
Proof.
  revert l; induction i as [|i IH]; intros l; simpl; [reflexivity|].
  destruct l as [|x l]; [now rewrite skipn_nil | apply IH].
Qed.

Lemma skipn_take_while l :
  skipn (length (take_while p l)) l = drop_while p l.
Proof.
  induction l as [|x l IH]; simpl; [reflexivity|].
  destruct (p x); simpl; [exact IH | reflexivity].
Qed.

Lemma forallb_Forall_false l :
  forallb (fun x => negb (p x)) l = true -> Forall (fun x => p x = false) l.
Proof.
  rewrite forallb_forall, Forall_forall. intros H x Hx.
  apply negb_true_iff, H, Hx.
Qed.
End ListFacts.

(** ** The matcher *)

Module ReFacts.
Import Re.

Lemma mstate_eq (a b : mstate) :
  before a = before b -> after a = after b -> group a = group b -> a = b.
Proof. destruct a, b; simpl; intros; subst; reflexivity. Qed.

Lemma firstn_exact (A : Type) (w r : list A) : firstn (length w) (w ++ r) = w.
Proof. induction w as [|x w IH]; simpl; [now destruct r | now rewrite IH]. Qed.

Lemma skipn_exact (A : Type) (w r : list A) : skipn (length w) (w ++ r) = r.
Proof. induction w as [|x w IH]; simpl; [reflexivity | exact IH]. Qed.

Section Sem.
Variable db : ucd.
Variable ic : bool.

Lemma advance_split j st :
  j <= length (after st) ->
  after st = firstn j (after st) ++ after (advance j st)
  /\ length (firstn j (after st)) = j.
Proof.
  intros H; simpl. rewrite firstn_skipn. split; [reflexivity|].
  rewrite length_firstn. lia.
Qed.

Lemma advance_exact w st st' :
  after st = w ++ after st' ->
  before st' = rev w ++ before st ->
  group st' = group st ->
  st' = advance (length w) st.
Proof.
  intros Ha Hb Hg. apply mstate_eq; simpl.
  - now rewrite Ha, firstn_exact.
  - now rewrite Ha, skipn_exact.
  - exact Hg.
Qed.

Theorem matches_iff p : forall st st',
  In st' (matches db ic p st) <-> Matches db ic p st st'.
Proof.
  induction p as [|av|m k|p1 IH1 p2 IH2| | |p1 IH1]; intros st st'; simpl.
  - split; [intros [H|[]]; now subst | intros ->; now left].
  - destruct (after st) as [|ch r] eqn:Ea.
    + split; [intros [] | intros (ch & H & _); discriminate].
    + destruct (literal_matches db ic av ch) eqn:El.
      * split.
        -- intros [H|[]]; subst st'. exists ch; simpl. rewrite Ea; simpl.
           repeat split; assumption.
        -- intros (ch' & H1 & H2 & H3 & H4). left.
           injection H1 as <- Hr. symmetry.
           apply (@advance_exact [ch] st st'); simpl; [rewrite Ea; now f_equal | exact H3 | exact H4].
      * split; [intros [] | intros (ch' & H1 & H2 & _)].
        injection H1 as <- _. congruence.
  - rewrite in_map_iff. split.
    + intros (j & <- & Hj). apply in_rev, in_seq in Hj.
      assert (Hn : j <= length (take_while (in_category db k) (after st))) by lia.
      apply take_while_length_firstn in Hn as [Hall Hlen].
      destruct (@advance_split j st Hlen) as [Hs Hl].
      exists (firstn j (after st)). repeat split; try assumption; lia.
    + intros (w & Ha & Hall & Hm & Hb & Hg).
      exists (length w). split; [symmetry; now apply advance_exact|].
      apply in_rev. rewrite rev_involutive. apply in_seq.
      pose proof (@take_while_length_app _ (in_category db k) w (after st') Hall) as Hle.
      rewrite <- Ha in Hle. lia.
  - rewrite in_flat_map. split.
    + intros (mid & H1 & H2). exists mid. split; [now apply IH1 | now apply IH2].
    + intros (mid & H1 & H2). exists mid. split; [now apply IH1 | now apply IH2].
  - destruct (before st) eqn:Eb.
    + split; [intros [H|[]]; now subst | intros [_ ->]; now left].
    + split; [intros [] | intros [H _]; discriminate].
  - destruct (at_boundary db st) eqn:Eb.
    + split; [intros [H|[]]; now subst | intros [_ ->]; now left].
    + split; [intros [] | intros [H _]; discriminate].
  - rewrite in_map_iff. split.
    + intros (st1 & <- & H). exists st1. split; [now apply IH1 | reflexivity].
    + intros (st1 & H & ->). exists st1. split; [reflexivity | now apply IH1].
Qed.

Lemma first_match_some p st :
  first_match db ic p st <> None <-> exists st', Matches db ic p st st'.
Proof.
  unfold first_match. split.
  - destruct (matches db ic p st) as [|x l] eqn:E; [now intros [] | intros _].
    exists x. apply matches_iff. rewrite E. now left.
  - intros (st' & H). apply matches_iff in H.
    destruct (matches db ic p st); [destruct H | discriminate].
Qed.
End Sem.
End ReFacts.

(** ** The block scan *)

Module ScanFacts.
Import PyStr Re Extractor.

Section Scan.
Variable db : ucd.

Local Opaque startswith.

(** The inner loop stops at the first line that begins with ['# '], or
    at the end, and has collected the lines before it. *)
Lemma collect_block_spec lines : forall fuel i block_lines,
  length lines - i <= fuel ->
  collect_block fuel lines i block_lines
  = Some (i + length (take_while in_block (skipn i lines)),
          block_lines ++ take_while in_block (skipn i lines)).
Proof.
  assert (Hstop : forall fuel i bl,
             nth_error lines i = None ->
             collect_block fuel lines i bl
             = Some (i + length (take_while in_block (skipn i lines)),
                     bl ++ take_while in_block (skipn i lines))).
  { intros fuel i bl E. rewrite (skipn_nth_error lines i), E.
    destruct fuel; simpl; rewrite E; now rewrite Nat.add_0_r, app_nil_r. }
  induction fuel as [|fuel IH]; intros i bl Hf;
    destruct (nth_error lines i) as [ln|] eqn:E; try (now apply Hstop).
  - assert (i < length lines) by (apply nth_error_Some; congruence). lia.
  - rewrite (skipn_nth_error lines i), E. simpl. rewrite E.
    unfold in_block at 1 3.
    destruct (startswith [HASH; SPACE] ln); simpl.
    + now rewrite Nat.add_0_r, app_nil_r.
    + rewrite IH by lia. rewrite <- app_assoc. simpl.
      now rewrite Nat.add_succ_r.
Qed.

Lemma take_while_length (A : Type) (p : A -> bool) l :
  length (take_while p l) <= length l.
Proof.
  induction l as [|x l IH]; simpl; [lia|]. destruct (p x); simpl; lia.
Qed.

(** One iteration of the outer loop. *)
Lemma loop_body_spec name lines i results ln :
  nth_error lines i = Some ln ->
  match re_match db (make_header_re name) ln with
  | None => loop_body db name lines i results ln = Some (S i, results)
  | Some m =>
      let block_lines := take_while in_block (skipn (S i) lines) in
      loop_body db name lines i results ln
      = Some (S i + length block_lines,
              results ++ [make_item db (strip (group_id m)) block_lines])
  end.
Proof.
  intros E. unfold loop_body.
  destruct (re_match db (make_header_re name) ln) as [m|]; [|reflexivity].
  rewrite collect_block_spec by lia. reflexivity.
Qed.

Lemma scan_spec name lines : forall fuel i results,
  length lines - i <= fuel ->
  exists bs,
    Blocks db name (skipn i lines) bs
    /\ scan db fuel name lines i results
       = Some (results ++ List.map (item_of_block db) bs).
Proof.
  induction fuel as [|fuel IH]; intros i results Hf.
  - exists []. rewrite (skipn_nth_error lines i).
    destruct (nth_error lines i) eqn:E.
    + assert (i < length lines) by (apply nth_error_Some; congruence). lia.
    + simpl. rewrite E, app_nil_r. split; [constructor | reflexivity].
  - rewrite (skipn_nth_error lines i). simpl.
    destruct (nth_error lines i) as [ln|] eqn:E.
    2:{ exists []. rewrite app_nil_r. split; [constructor | reflexivity]. }
    assert (Hi : i < length lines) by (apply nth_error_Some; congruence).
    pose proof (loop_body_spec name lines i results E) as Hb.
    destruct (re_match db (make_header_re name) ln) as [m|] eqn:Em.
    + cbv zeta in Hb. rewrite Hb.
      set (bl := take_while in_block (skipn (S i) lines)) in *.
      destruct (IH (S i + length bl)
                   (results ++ [make_item db (strip (group_id m)) bl]))
        as (bs & HB & Hs); [lia|].
      exists ((strip (group_id m), bl) :: bs). split.
      * rewrite skipn_add in HB. unfold bl in HB at 1.
        rewrite skipn_take_while in HB.
        eapply Blocks_header; try eassumption.
        -- symmetry. apply take_drop_while.
        -- apply forallb_Forall_false. fold in_block. apply take_while_all.
        -- destruct (drop_while in_block (skipn (S i) lines)) as [|l r] eqn:Ed;
             [exact I|].
           apply drop_while_head in Ed. now apply negb_false_iff in Ed.
      * rewrite Hs, <- app_assoc. reflexivity.
    + rewrite Hb.
      destruct (IH (S i) results) as (bs & HB & Hs); [lia|].
      exists bs. split; [now apply Blocks_skip | exact Hs].
Qed.
(** The scan returns: the fuel of [extract_from_text] is enough. *)
Lemma extract_from_text_returns text name :
  exists items, extract_from_text db text name = Some items.
Proof.
  unfold extract_from_text.
  destruct (@scan_spec name (splitlines text) (length (splitlines text)) 0 [])
    as (bs & _ & Hs); [lia|].
  eexists. exact Hs.
Qed.

(** A block's lines are determined: they are the longest run of lines
    that do not begin with ['# ']. *)
Lemma block_split_unique block_lines rest' :
  Forall (fun l => startswith [HASH; SPACE] l = false) block_lines ->
  match rest' with
  | [] => True
  | l :: _ => startswith [HASH; SPACE] l = true
  end ->
  take_while in_block (block_lines ++ rest') = block_lines
  /\ drop_while in_block (block_lines ++ rest') = rest'.
Proof.
  intros Hb Hr.
  assert (Hall : forallb in_block block_lines = true).
  { apply forallb_forall. intros l Hl. rewrite Forall_forall in Hb.
    unfold in_block. now rewrite (Hb l Hl). }
  assert (Hstop : match rest' with
                  | [] => True
                  | l :: _ => in_block l = false
                  end).
  { destruct rest' as [|l r]; [exact I|]. unfold in_block. now rewrite Hr. }
  rewrite take_while_app, drop_while_app by exact Hall.
  rewrite take_while_stop, drop_while_stop by exact Hstop.
  now rewrite app_nil_r.
Qed.

Lemma Blocks_functional name lines bs :
  Blocks db name lines bs -> forall bs', Blocks db name lines bs' -> bs' = bs.
Proof.
  induction 1 as [|ln rest bs Hn _ IH|ln rest m bl rest' bs Hm -> Hb Hr _ IH];
    intros bs' H';
    inversion H' as [|? ? ? Hn' HB'|? ? m2 bl2 r2 bs2 Hm2 Ha Hb2 Hr2 HB2];
    subst; try congruence.
  - now apply IH.
  - destruct (@block_split_unique _ _ Hb Hr) as [E1 E2].
    destruct (@block_split_unique _ _ Hb2 Hr2) as [E3 E4].
    rewrite Ha in E1, E2.
    rewrite E1 in E3. rewrite E2 in E4. subst bl2 r2.
    f_equal; [congruence|]. now apply IH.
Qed.
End Scan.
End ScanFacts.

(** ** The encoding detector *)

Module DecodeFacts.
Import Extractor.

Section Decode.
Variable os : host.

(** The loop returns the first candidate that decodes; [None] only
    when none does. *)
Lemma decode_first_spec b : forall encodings,
  match decode_first os b encodings with
  | Some (text, e) =>
      exists earlier later,
        encodings = earlier ++ e :: later
        /\ Forall (fun e' => decode os e' b = None) earlier
        /\ decode os e b = Some text
  | None => Forall (fun e' => decode os e' b = None) encodings
  end.
Proof.
  induction encodings as [|e rest IH]; simpl; [constructor|].
  destruct (decode os e b) as [text|] eqn:E.
  - exists [], rest. repeat split; [constructor | exact E].
  - destruct (decode_first os b rest) as [[text e']|].
    + destruct IH as (earlier & later & -> & Hall & Hd).
      exists (e :: earlier), later. repeat split; [|exact Hd].
      constructor; assumption.
    + constructor; assumption.
Qed.

Lemma decode_first_latin_1 b : forall encodings,
  In latin_1 encodings -> decode_first os b encodings <> None.
Proof.
  intros encodings Hin H.
  pose proof (decode_first_spec b encodings) as Hs. rewrite H in Hs.
  rewrite Forall_forall in Hs. specialize (Hs _ Hin). discriminate.
Qed.

Lemma decode_first_ENCODINGS b :
  exists text e, decode_first os b ENCODINGS = Some (text, e).
Proof.
  destruct (decode_first os b ENCODINGS) as [[text e]|] eqn:E.
  - now exists text, e.
  - exfalso. apply (@decode_first_latin_1 b ENCODINGS); [|exact E].
    unfold ENCODINGS. simpl. tauto.
Qed.
End Decode.
End DecodeFacts.

(** ** The header pattern *)

Module HeaderFacts.
Import PyStr Re Extractor ReFacts.

Section Header.
Variable db : ucd.
Variable ic : bool.

Lemma Matches_literals s : forall st st',
  Matches db ic (literals s) st st'
  <-> exists w,
        after st = w ++ after st'
        /\ Forall2 (fun av ch => literal_matches db ic av ch = true) s w
        /\ before st' = rev w ++ before st /\ group st' = group st.
Proof.
  induction s as [|c s IH]; intros st st'; simpl.
  - split.
    + intros ->. exists []. repeat split. constructor.
    + intros (w & Ha & Hw & Hb & Hg). inversion Hw; subst w.
      now apply mstate_eq.
  - split.
    + intros (mid & (ch & Ha & Hl & Hb & Hg) & Hm).
      apply IH in Hm as (w & Ha' & Hw & Hb' & Hg').
      exists (ch :: w). simpl. rewrite Ha, Ha', Hb', Hb, Hg', Hg, <- app_assoc.
      repeat split. now constructor.
    + intros (w & Ha & Hw & Hb & Hg). inversion Hw as [|? ch ? w' Hl Hw']; subst.
      exists {| before := ch :: before st; after := w' ++ after st';
                group := group st |}.
      split.
      * exists ch. simpl. repeat split; assumption.
      * apply IH. exists w'. simpl. repeat split; try assumption.
        rewrite Hb. simpl. now rewrite <- app_assoc.
Qed.

Lemma hd_rev_last (ds x : str) (f : codepoint -> bool) :
  ds <> [] ->
  match rev ds ++ x with c :: _ => f c | [] => false end = f (last ds 0%N).
Proof.
  intros H. destruct (exists_last H) as (l & a & ->).
  rewrite rev_app_distr, last_last. reflexivity.
Qed.
End Header.

Lemma uncased_literal db av ch :
  unicode_iscased db av = false ->
  literal_matches db true av ch = true <-> ch = av.
Proof.
  intros H. unfold literal_matches. rewrite H. simpl. apply N.eqb_eq.
Qed.

Theorem header_matches_iff db name line :
  unicode_iscased db HASH = false ->
  unicode_iscased db UNDERSCORE = false ->
  re_match db (make_header_re name) line <> None
  <-> header_shape db name line.
Proof.
  intros Hh Hu. unfold re_match. rewrite first_match_some.
  unfold header_shape. cbn [make_header_re pat IGNORECASE Matches re_escape].
  split.
  - intros (st' & m1 & (_ & ->) & m2 & (ch & Ha1 & Hl1 & Hb1 & _)
            & m3 & (ws & Ha2 & Hws & _ & Hb2 & _)
            & m4 & (g1 & (a & (body & Ha3 & Hbody & Hlb & Hb3 & _)
                          & b & (us & Ha4 & Hl4 & Hb4 & _)
                          & c & Hnm & ds & Ha5 & Hds & Hld & Hb5 & _) & ->)
            & Hbd & _).
    apply uncased_literal in Hl1; [|exact Hh].
    apply uncased_literal in Hl4; [|exact Hu]. subst ch us.
    apply Matches_literals in Hnm as (nm & Ha6 & Hnm & Hb6 & _).
    assert (Hne : ds <> []) by (destruct ds; [simpl in Hld; lia | discriminate]).
    exists ws, body, nm, ds, (after g1). repeat split; try assumption.
    + simpl in Ha1. now rewrite Ha1, Ha2, Ha3, Ha4, Ha6, Ha5.
    + destruct body; [simpl in Hlb; lia | discriminate].
    + unfold at_boundary in Hbd. cbn [close_group before after] in Hbd.
      rewrite Hb5, (hd_rev_last _ (is_word db) Hne) in Hbd. exact Hbd.
  - intros (ws & body & nm & ds & tail & -> & Hws & Hbody & Hdot & Hnm & Hds
            & Hdec & Hbd).
    set (b2 := [HASH]).
    set (b3 := rev ws ++ b2).
    set (b4 := rev body ++ b3).
    set (b5 := UNDERSCORE :: b4).
    set (b6 := rev nm ++ b5).
    set (b7 := rev ds ++ b6).
    exists (close_group (start b3 (body ++ UNDERSCORE :: nm ++ ds ++ tail))
                        (start b7 tail)).
    exists (start [] (HASH :: ws ++ body ++ UNDERSCORE :: nm ++ ds ++ tail)).
    split; [split; reflexivity|].
    exists (start b2 (ws ++ body ++ UNDERSCORE :: nm ++ ds ++ tail)).
    split.
    { exists HASH. repeat split. now apply uncased_literal. }
    exists (start b3 (body ++ UNDERSCORE :: nm ++ ds ++ tail)).
    split.
    { exists ws. repeat split; [exact Hws | simpl; lia]. }
    eexists. split.
    2:{ split; [|reflexivity]. unfold at_boundary.
        cbn [close_group start before after]. unfold b7.
        rewrite (hd_rev_last _ (is_word db) Hds). exact Hbd. }
    exists (start b7 tail). split; [|reflexivity].
    exists (start b4 (UNDERSCORE :: nm ++ ds ++ tail)). split.
    { exists body. repeat split; [exact Hdot|].
      destruct body; [congruence | simpl; lia]. }
    exists (start b5 (nm ++ ds ++ tail)). split.
    { exists UNDERSCORE. repeat split. now apply uncased_literal. }
    exists (start b6 (ds ++ tail)). split.
    { apply Matches_literals. exists nm. repeat split. exact Hnm. }
    exists ds. repeat split; [exact Hdec|].
    destruct ds; [congruence | simpl; lia].
Qed.
End HeaderFacts.

(** ** Stripping and joining *)

Module StrFacts.
Import PyStr.

Lemma forallb_rev (A : Type) (p : A -> bool) l :
  forallb p (rev l) = forallb p l.
Proof.
  destruct (forallb p l) eqn:E.
  - apply forallb_forall. intros x Hx. apply in_rev in Hx.
    revert x Hx. now apply forallb_forall.
  - destruct (forallb p (rev l)) eqn:E'; [|reflexivity].
    rewrite <- E. symmetry. apply forallb_forall. intros x Hx.
    apply in_rev in Hx. revert x Hx. now apply forallb_forall.
Qed.

Lemma existsb_rev (A : Type) (p : A -> bool) l :
  existsb p (rev l) = existsb p l.
Proof.
  induction l as [|x l IH]; simpl; [reflexivity|].
  rewrite existsb_app, IH. simpl. rewrite orb_false_r. apply orb_comm.
Qed.

Lemma existsb_drop_while_space s :
  existsb nonspace (drop_while isspace s) = existsb nonspace s.
Proof.
  induction s as [|c s IH]; simpl; [reflexivity|].
  unfold nonspace at 2. destruct (isspace c) eqn:E; simpl; [exact IH|].
  unfold nonspace at 1. now rewrite E.
Qed.

Lemma existsb_rstrip s : existsb nonspace (rstrip s) = existsb nonspace s.
Proof.
  unfold rstrip. now rewrite existsb_rev, existsb_drop_while_space, existsb_rev.
Qed.

Lemma existsb_strip s : existsb nonspace (strip s) = existsb nonspace s.
Proof.
  unfold strip, lstrip. now rewrite existsb_rstrip, existsb_drop_while_space.
Qed.

Lemma drop_while_space_nonempty s :
  drop_while isspace s <> [] <-> existsb nonspace s = true.
Proof.
  induction s as [|c s IH]; simpl; [split; [congruence | discriminate]|].
  unfold nonspace at 1. destruct (isspace c); simpl; [exact IH|].
  split; [reflexivity | discriminate].
Qed.

Lemma rstrip_nonempty s : rstrip s <> [] <-> existsb nonspace s = true.
Proof.
  unfold rstrip. rewrite <- (existsb_rev nonspace s), <- drop_while_space_nonempty.
  split; intros H E; apply H.
  - now rewrite E.
  - apply (f_equal (@rev _)) in E. now rewrite rev_involutive in E.
Qed.

Lemma strip_nonempty s : strip s <> [] <-> existsb nonspace s = true.
Proof.
  unfold strip, lstrip. now rewrite rstrip_nonempty, existsb_drop_while_space.
Qed.

Lemma strip_empty s : strip s = [] <-> existsb nonspace s = false.
Proof.
  pose proof (strip_nonempty s) as [H1 H2].
  destruct (strip s) as [|c r]; destruct (existsb nonspace s).
  - exfalso. now apply H2.
  - tauto.
  - split; discriminate.
  - exfalso. assert (false = true) by (apply H1; discriminate). discriminate.
Qed.

Lemma existsb_join ls :
  existsb nonspace (join [LF] ls) = existsb (existsb nonspace) ls.
Proof.
  induction ls as [|l ls IH]; [reflexivity|].
  destruct ls as [|l' ls].
  - simpl. now rewrite orb_false_r.
  - change (join [LF] (l :: l' :: ls)) with (l ++ [LF] ++ join [LF] (l' :: ls)).
    rewrite !existsb_app, IH. reflexivity.
Qed.

(** The text kept by [rstrip], and what it removed. *)
Lemma rstrip_split s :
  exists trail,
    s = rstrip s ++ trail /\ forallb isspace trail = true
    /\ match rev (rstrip s) with [] => True | c :: _ => isspace c = false end.
Proof.
  unfold rstrip. exists (rev (take_while isspace (rev s))).
  rewrite rev_involutive. repeat split.
  - rewrite <- rev_app_distr, take_drop_while. now rewrite rev_involutive.
  - rewrite forallb_rev. apply take_while_all.
  - destruct (drop_while isspace (rev s)) eqn:E; [exact I|].
    now apply drop_while_head in E.
Qed.

Lemma rstrip_head s c r :
  rstrip s = c :: r -> exists r', s = c :: r'.
Proof.
  intros H. destruct (rstrip_split s) as (trail & Hs & _).
  rewrite H in Hs. now exists (r ++ trail).
Qed.

Lemma char_in_marker c :
  char_in [SEMICOLON; SPACE] c = true <-> c = SEMICOLON \/ c = SPACE.
Proof.
  unfold char_in. simpl. rewrite !orb_true_iff, !N.eqb_eq.
  split; [intros [H|[H|H]]; [now left | now right | discriminate] | tauto].
Qed.

(** [startswith] and [contains] as decompositions. *)
Lemma startswith_iff p : forall s,
  startswith p s = true <-> exists r, s = p ++ r.
Proof.
  induction p as [|c p IH]; intros s; simpl.
  - split; [now exists s | reflexivity].
  - destruct s as [|d s]; [split; [discriminate | intros (r & H); discriminate]|].
    rewrite andb_true_iff, N.eqb_eq, IH. split.
    + intros (-> & r & ->). now exists r.
    + intros (r & H). injection H as -> ->. split; [reflexivity | now exists r].
Qed.

Lemma contains_iff sub : forall s,
  contains sub s = true <-> exists a b, s = a ++ sub ++ b.
Proof.
  induction s as [|c s IH].
  - simpl. rewrite orb_false_r, startswith_iff. split.
    + intros (r & ->). now exists [], r.
    + intros (a & b & H). destruct a; [now exists b|discriminate].
  - change (contains sub (c :: s))
      with (startswith sub (c :: s) || contains sub s).
    rewrite orb_true_iff, startswith_iff, IH. split.
    + intros [(r & ->)|(a & b & ->)]; [now exists [], r | now exists (c :: a), b].
    + intros (a & b & H). destruct a as [|x a]; [left; now exists b|].
      right. injection H as -> ->. now exists a, b.
Qed.
End StrFacts.

(** ** The fields of a record *)

Module ItemFacts.
Import PyStr Re Extractor StrFacts.

Lemma strip_marker_spec ln : marker_stripped ln (strip_marker ln).
Proof.
  unfold strip_marker, lstrip_chars.
  set (p := char_in [SEMICOLON; SPACE]).
  destruct (rstrip_split (drop_while p ln)) as (trail & Hs & Ht & Hl).
  exists (take_while p ln), trail. repeat split.
  - rewrite <- Hs. symmetry. apply take_drop_while.
  - apply Forall_forall. intros x Hx. apply char_in_marker.
    pose proof (take_while_all p ln) as Ha.
    rewrite forallb_forall in Ha. now apply Ha.
  - exact Ht.
  - destruct (rstrip (drop_while p ln)) as [|x r] eqn:E; [exact I|].
    apply rstrip_head in E as (r' & E). apply drop_while_head in E.
    unfold p in E. split; intros ->; discriminate.
  - exact Hl.
Qed.

Lemma drop_while_subset (A : Type) (p : A -> bool) l x :
  In x (drop_while p l) -> In x l.
Proof.
  induction l as [|y l IH]; simpl; [tauto|].
  destruct (p y); [intros H; right; now apply IH | tauto].
Qed.

(** The relation determines the contribution: it is the text the code
    computes and no other. *)
Lemma marker_stripped_unique ln c :
  marker_stripped ln c -> c = strip_marker ln.
Proof.
  intros (lead & trail & -> & Hlead & Htrail & Hhead & Hlast).
  unfold strip_marker, lstrip_chars.
  set (p := char_in [SEMICOLON; SPACE]).
  assert (Hl : forallb p lead = true).
  { apply forallb_forall. intros x Hx. apply char_in_marker.
    rewrite Forall_forall in Hlead. now apply Hlead. }
  rewrite (@drop_while_app _ p lead (c ++ trail) Hl).
  destruct c as [|x c'].
  - simpl app. destruct (rstrip (drop_while p trail)) as [|y r] eqn:E;
      [reflexivity | exfalso].
    assert (Hne : rstrip (drop_while p trail) <> [])
      by (rewrite E; discriminate).
    apply rstrip_nonempty, existsb_exists in Hne as (z & Hz & Hns).
    apply drop_while_subset in Hz.
    rewrite forallb_forall in Htrail. specialize (Htrail z Hz).
    unfold nonspace in Hns. now rewrite Htrail in Hns.
  - destruct Hhead as [H1 H2].
    assert (Hpx : p x = false).
    { destruct (p x) eqn:E; [|reflexivity].
      apply char_in_marker in E as [E|E]; contradiction. }
    rewrite (@drop_while_stop _ p ((x :: c') ++ trail)) by exact Hpx.
    unfold rstrip. rewrite rev_app_distr.
    rewrite (@drop_while_app _ isspace (rev trail) (rev (x :: c')))
      by (now rewrite forallb_rev).
    rewrite (@drop_while_stop _ isspace (rev (x :: c'))) by exact Hlast.
    now rewrite rev_involutive.
Qed.

Lemma contributions_unique (lines cs : list str) :
  Forall2 marker_stripped lines cs -> cs = List.map strip_marker lines.
Proof.
  induction 1 as [|ln c lines cs Hc _ IH]; [reflexivity|].
  simpl. now rewrite (marker_stripped_unique Hc), IH.
Qed.

Lemma contributions_spec (lines : list str) :
  Forall2 marker_stripped lines (List.map strip_marker lines).
Proof.
  induction lines as [|ln lines IH]; simpl; constructor;
    [apply strip_marker_spec | exact IH].
Qed.

Lemma strip_marker_nonempty ln :
  existsb nonspace (strip_marker ln) = true <-> strip_marker ln <> [].
Proof.
  unfold strip_marker. now rewrite existsb_rstrip, rstrip_nonempty.
Qed.

Section Item.
Variable db : ucd.

Lemma orig_nonempty_iff block_id block_lines :
  orig (make_item db block_id block_lines) <> []
  <-> exists ln,
        In ln block_lines /\ is_commentary ln = true
        /\ strip_marker ln <> []
        /\ marker_found db block_id (strip_marker ln) = false.
Proof.
  cbn [make_item orig].
  rewrite strip_nonempty, existsb_join, existsb_exists.
  unfold orig_lines, orig_lines_raw. split.
  - intros (l & Hin & Hl). apply filter_In in Hin as [Hin Hm].
    apply in_map_iff in Hin as (ln & <- & Hin).
    apply filter_In in Hin as [Hin Hc]. exists ln.
    repeat split; try assumption.
    + now apply strip_marker_nonempty.
    + now apply negb_true_iff.
  - intros (ln & Hin & Hc & Hne & Hm). exists (strip_marker ln). split.
    + apply filter_In. split; [|now apply negb_true_iff].
      apply in_map. now apply filter_In.
    + now apply strip_marker_nonempty.
Qed.

Lemma trans_nonempty_iff block_id block_lines :
  trans (make_item db block_id block_lines) <> []
  <-> exists ln,
        In ln block_lines /\ is_commentary ln = false /\ strip ln <> [].
Proof.
  cbn [make_item trans].
  rewrite strip_nonempty, existsb_join, existsb_exists.
  unfold trans_lines. split.
  - intros (l & Hin & Hl). apply in_map_iff in Hin as (ln & <- & Hin).
    apply filter_In in Hin as [Hin Hc].
    apply andb_true_iff in Hc as [Hc _]. exists ln.
    repeat split; [assumption | now apply negb_true_iff|].
    rewrite existsb_rstrip in Hl. now apply strip_nonempty.
  - intros (ln & Hin & Hc & Hne). exists (rstrip ln). split.
    + apply in_map, filter_In. split; [assumption|].
      rewrite Hc. simpl. destruct (strip ln); [congruence | reflexivity].
    + rewrite existsb_rstrip. now apply strip_nonempty.
Qed.

Lemma not_nonempty (s : str) : ~ s <> [] -> s = [].
Proof. destruct s; [reflexivity | intros H; exfalso; apply H; discriminate]. Qed.
End Item.
End ItemFacts.

(** ** The redundant-marker pattern *)

Module MarkerFacts.
Import PyStr Re Extractor ReFacts StrFacts.

Section Marker.
Variable db : ucd.

Lemma search_from_eq ic p b a :
  search_from db ic p b a
  = match first_match db ic p (start b a) with
    | Some st => Some st
    | None =>
        match a with
        | [] => None
        | c :: a' => search_from db ic p (c :: b) a'
        end
    end.
Proof. destruct a; reflexivity. Qed.

(** A match at some position makes the search succeed. *)
Lemma search_from_found ic p x : forall skipped b,
  first_match db ic p (start (rev skipped ++ b) x) <> None ->
  search_from db ic p b (skipped ++ x) <> None.
Proof.
  induction skipped as [|c skipped IH]; intros b H; rewrite search_from_eq.
  - simpl in *. destruct (first_match db ic p (start b x)); congruence.
  - destruct (first_match db ic p (start b ((c :: skipped) ++ x)));
      [discriminate|].
    simpl. apply IH. simpl in H. now rewrite <- app_assoc in H.
Qed.

Lemma literal_same c : literal_matches db false c c = true.
Proof. unfold literal_matches. simpl. apply N.eqb_refl. Qed.

Lemma literals_same (s : str) :
  Forall2 (fun av ch => literal_matches db false av ch = true) s s.
Proof. induction s; constructor; [apply literal_same | assumption]. Qed.

(** The pattern matches where the text [|#<id>|] stands. *)
Lemma marker_matches_here block_id b x :
  first_match db false (pat (make_marker_re block_id))
              (start b (marker_text block_id ++ x)) <> None.
Proof.
  apply first_match_some. unfold marker_text.
  cbn [make_marker_re pat Matches re_escape].
  set (b1 := PIPE :: b). set (b2 := HASH :: b1).
  set (b3 := rev block_id ++ b2).
  exists (start (PIPE :: b3) x).
  exists (start b1 (HASH :: block_id ++ PIPE :: x)). split.
  { exists PIPE. simpl. rewrite <- app_assoc. repeat split. }
  exists (start b1 (HASH :: block_id ++ PIPE :: x)). split.
  { exists []. repeat split. simpl. lia. }
  exists (start b2 (block_id ++ PIPE :: x)). split.
  { exists HASH. repeat split. }
  exists (start b2 (block_id ++ PIPE :: x)). split.
  { exists []. repeat split. simpl. lia. }
  exists (start b3 (PIPE :: x)). split.
  { apply HeaderFacts.Matches_literals. exists block_id. repeat split.
    apply literals_same. }
  exists (start b3 (PIPE :: x)). split.
  { exists []. repeat split. simpl. lia. }
  exists PIPE. repeat split.
Qed.

Lemma marker_found_in block_id ln :
  contains (marker_text block_id) ln = true ->
  marker_found db block_id ln = true.
Proof.
  intros H. apply contains_iff in H as (a & b & ->).
  unfold marker_found, re_search.
  destruct (search_from db (IGNORECASE (make_marker_re block_id))
              (pat (make_marker_re block_id)) []
              (a ++ marker_text block_id ++ b)) eqn:E; [reflexivity|].
  exfalso. revert E. apply search_from_found. apply marker_matches_here.
Qed.

Lemma orig_lines_no_marker block_id block_lines ln :
  In ln (orig_lines db block_id block_lines) ->
  marker_found db block_id ln = false.
Proof.
  unfold orig_lines. intros H. apply filter_In in H as [_ H].
  now apply negb_true_iff.
Qed.
End Marker.

(** Substrings of a stripped string and of joined lines. *)
Lemma contains_trans a b c :
  contains a b = true -> contains b c = true -> contains a c = true.
Proof.
  rewrite !contains_iff. intros (x & y & ->) (x' & y' & ->).
  exists (x' ++ x), (y ++ y'). now rewrite <- !app_assoc.
Qed.

Lemma contains_strip s : contains (strip s) s = true.
Proof.
  apply contains_iff. unfold strip, lstrip.
  destruct (rstrip_split (drop_while isspace s)) as (trail & Hs & _).
  exists (take_while isspace s), trail. rewrite <- Hs.
  symmetry. apply take_drop_while.
Qed.

Lemma prefix_before_LF sub : forall l b rest,
  ~ In LF sub ->
  sub ++ b = l ++ LF :: rest ->
  exists b', l = sub ++ b'.
Proof.
  induction sub as [|x sub IH]; intros l b rest Hn H; [now exists l|].
  destruct l as [|c l]; simpl in H.
  - injection H as -> _. exfalso. apply Hn. now left.
  - injection H as -> H. destruct (IH l b rest) as (b' & ->); [|exact H|].
    + intros Hin. apply Hn. now right.
    + now exists b'.
Qed.

Lemma infix_across_LF sub : forall l a b rest,
  sub <> [] -> ~ In LF sub ->
  l ++ LF :: rest = a ++ sub ++ b ->
  (exists b', l = a ++ sub ++ b') \/ (exists a', rest = a' ++ sub ++ b).
Proof.
  induction l as [|c l IH]; intros a b rest Hne Hn H.
  - right. destruct a as [|x a]; simpl in H.
    + destruct sub as [|y sub]; [congruence|]. injection H as <- _.
      exfalso. apply Hn. now left.
    + injection H as _ ->. now exists a.
  - destruct a as [|x a]; simpl in H.
    + left. symmetry in H.
      destruct (@prefix_before_LF sub (c :: l) b rest Hn H) as (b' & Hb).
      now exists b'.
    + injection H as <- H. destruct (IH a b rest Hne Hn H) as [(b' & ->)|Hr].
      * left. now exists b'.
      * now right.
Qed.

Lemma contains_join sub : forall ls,
  sub <> [] -> ~ In LF sub ->
  contains sub (join [LF] ls) = true ->
  exists l, In l ls /\ contains sub l = true.
Proof.
  intros ls Hne Hn. induction ls as [|l ls IH]; intros H.
  - apply contains_iff in H as (a & b & H).
    destruct a; destruct sub; try discriminate; congruence.
  - destruct ls as [|l' ls].
    + exists l. split; [now left | exact H].
    + change (join [LF] (l :: l' :: ls))
        with (l ++ LF :: join [LF] (l' :: ls)) in H.
      apply contains_iff in H as (a & b & H).
      destruct (infix_across_LF l a b _ Hne Hn H) as [(b' & ->)|(a' & Hr)].
      * exists (a ++ sub ++ b'). split; [now left|].
        apply contains_iff. now exists a, b'.
      * destruct IH as (x & Hx & Hc).
        { apply contains_iff. now exists a', b. }
        exists x. split; [now right | exact Hc].
Qed.

(** No line of [orig] holds the text [|#<id>|] of its own block. *)
Lemma marker_text_absent db block_id block_lines sub :
  ~ In LF sub ->
  contains (marker_text block_id) sub = true ->
  contains sub (orig (make_item db block_id block_lines)) = false.
Proof.
  intros Hn Hm.
  destruct (contains sub (orig (make_item db block_id block_lines))) eqn:E;
    [exfalso | reflexivity].
  cbn [make_item orig] in E.
  pose proof (contains_trans _ _ _ E (contains_strip _)) as Hj.
  apply contains_join in Hj as (l & Hl & Hc); [|
    apply contains_iff in Hm as (a & b & ->); destruct a; discriminate
    | exact Hn].
  apply orig_lines_no_marker in Hl.
  rewrite (marker_found_in db block_id l) in Hl; [discriminate|].
  exact (contains_trans _ _ _ Hm Hc).
Qed.
End MarkerFacts.

(** ** The directory walk *)

Module WalkFacts.
Import PyStr Extractor.

Lemma keep_iff it : keep it = true <-> orig it <> [] \/ trans it <> [].
Proof.
  unfold keep, truthy. destruct (trans it), (orig it); simpl;
    split; intros H; try reflexivity; try discriminate;
    try (destruct H as [H|H]; congruence);
    try (left; discriminate); right; discriminate.
Qed.

Section Walk.
Variable db : ucd.
Variable os : host.
Variable name : str.

Lemma scan_files_spec dirpath : forall files out out',
  scan_files db os name dirpath files out = Ok out' ->
  exists added,
    out' = out ++ added
    /\ forallb keep added = true
    /\ forall fn it,
         In fn files -> file_yields db os name dirpath fn it -> In it added.
Proof.
  induction files as [|fn files IH]; intros out out' H; simpl in H.
  - injection H as <-. exists []. rewrite app_nil_r.
    repeat split. intros fn it [].
  - destruct (skipped_file db fn) eqn:Es.
    { destruct (IH _ _ H) as (added & -> & Hk & Hin).
      exists added. repeat split; [exact Hk|].
      intros fn0 it [<-|Hf] Hy; [|now apply (Hin fn0)].
      destruct Hy as [Hy _]. congruence. }
    destruct (read_text_try os (os_path_join os dirpath fn))
      as [[[text enc]|]| |] eqn:Er; try discriminate.
    + destruct (extract_from_text db text name) as [items|] eqn:Ee;
        [|discriminate].
      destruct (IH _ _ H) as (added & -> & Hk & Hin).
      exists (filter keep items ++ added).
      rewrite app_assoc. repeat split.
      * rewrite forallb_app, Hk, andb_true_r.
        apply forallb_forall. intros x Hx. now apply filter_In in Hx.
      * intros fn0 it [<-|Hf] Hy; apply in_or_app;
          [left | right; now apply (Hin fn0)].
        destruct Hy as (_ & text' & enc' & items' & Hr & He & Hi & Hkp).
        rewrite Er in Hr. injection Hr as <- <-.
        rewrite Ee in He. injection He as <-.
        now apply filter_In.
    + destruct (IH _ _ H) as (added & -> & Hk & Hin).
      exists added. repeat split; [exact Hk|].
      intros fn0 it [<-|Hf] Hy; [|now apply (Hin fn0)].
      destruct Hy as (_ & text' & enc' & items' & Hr & _).
      rewrite Er in Hr. discriminate.
Qed.

Lemma walk_dirs_spec : forall entries out out',
  walk_dirs db os name entries out = Ok out' ->
  exists added,
    out' = out ++ added
    /\ forallb keep added = true
    /\ forall dirpath dirs files fn it,
         In (dirpath, dirs, files) entries ->
         skipped_dir db dirpath = false ->
         In fn files -> file_yields db os name dirpath fn it -> In it added.
Proof.
  induction entries as [|[[dirpath dirs] files] entries IH];
    intros out out' H; simpl in H.
  - injection H as <-. exists []. rewrite app_nil_r.
    repeat split. intros ? ? ? ? ? [].
  - destruct (skipped_dir db dirpath) eqn:Es.
    { destruct (IH _ _ H) as (added & -> & Hk & Hin).
      exists added. repeat split; [exact Hk|].
      intros d ds fs fn it [E|He] Hs Hf Hy;
        [|now apply (Hin d ds fs fn)].
      injection E as <- <- <-. congruence. }
    destruct (scan_files db os name dirpath files out) as [mid| |] eqn:Ef;
      try discriminate.
    apply scan_files_spec in Ef as (added1 & -> & Hk1 & Hin1).
    destruct (IH _ _ H) as (added & -> & Hk & Hin).
    exists (added1 ++ added). rewrite app_assoc. repeat split.
    + now rewrite forallb_app, Hk1, Hk.
    + intros d ds fs fn it [E|He] Hs Hf Hy; apply in_or_app.
      * injection E as <- <- <-. left. now apply (Hin1 fn).
      * right. now apply (Hin d ds fs fn).
Qed.

(** When every file can be read the walk returns its output: no loop of
    the model runs out of fuel and nothing is raised. *)
Lemma scan_files_returns dirpath :
  (forall path, open_read os path <> None) ->
  forall files out,
  exists out', scan_files db os name dirpath files out = Ok out'.
Proof.
  intros Hread. induction files as [|fn files IH]; intros out; simpl.
  - now exists out.
  - destruct (skipped_file db fn); [apply IH|].
    unfold read_text_try.
    destruct (open_read os (os_path_join os dirpath fn)) as [b|] eqn:E;
      [|now apply Hread in E].
    destruct (decode_first os b ENCODINGS) as [[text enc]|]; [|apply IH].
    destruct (ScanFacts.extract_from_text_returns db text name) as (items & ->).
    apply IH.
Qed.

Lemma walk_dirs_returns :
  (forall path, open_read os path <> None) ->
  forall entries out,
  exists out', walk_dirs db os name entries out = Ok out'.
Proof.
  intros Hread.
  induction entries as [|[[dirpath dirs] files] entries IH]; intros out; simpl.
  - now exists out.
  - destruct (skipped_dir db dirpath); [apply IH|].
    destruct (scan_files_returns dirpath Hread files out) as (mid & ->).
    apply IH.
Qed.
End Walk.
End WalkFacts.

(** ** Independence from the tables outside Basic Latin *)

Module TableFacts.
Import PyStr Re Extractor ReFacts.

Lemma take_while_ext_in (A : Type) (p q : A -> bool) l :
  (forall x, In x l -> p x = q x) -> take_while p l = take_while q l.
Proof.
  induction l as [|x l IH]; intros H; simpl; [reflexivity|].
  rewrite <- (H x) by now left. destruct (p x); [|reflexivity].
  f_equal. apply IH. intros y Hy. apply H. now right.
Qed.

Lemma flat_map_ext_in (A B : Type) (f g : A -> list B) l :
  (forall x, In x l -> f x = g x) -> flat_map f l = flat_map g l.
Proof.
  induction l as [|x l IH]; intros H; simpl; [reflexivity|].
  rewrite (H x) by now left. f_equal. apply IH. intros y Hy. apply H. now right.
Qed.

Lemma basic_tolower c : basic c = true -> basic (Latin.tolower c) = true.
Proof.
  unfold basic, Latin.tolower, Latin.is_upper. intros H.
  apply N.ltb_lt in H.
  destruct ((65 <=? c)%N && (c <=? 90)%N) eqn:E; apply N.ltb_lt; [|exact H].
  apply andb_true_iff in E as [_ E]. apply N.leb_le in E. lia.
Qed.

Lemma not_among_fixes x l :
  basic x = true -> forallb (fun y => negb (basic y)) l = true ->
  existsb (N.eqb x) l = false.
Proof.
  intros Hx Hl. destruct (existsb (N.eqb x) l) eqn:E; [|reflexivity].
  apply existsb_exists in E as (y & Hy & Heq). apply N.eqb_eq in Heq. subst y.
  rewrite forallb_forall in Hl. specialize (Hl x Hy). now rewrite Hx in Hl.
Qed.

Lemma basic_latin_agrees : agrees_on_basic_latin basic_latin.
Proof.
  intros c Hc. repeat split. simpl. unfold Latin.fixes.
  destruct (c =? 105)%N; [reflexivity|]. destruct (c =? 115)%N; reflexivity.
Qed.

Lemma subject_basic st :
  basic_str (subject st) = true ->
  basic_str (before st) = true /\ basic_str (after st) = true.
Proof.
  unfold basic_str, subject. rewrite forallb_app, StrFacts.forallb_rev.
  apply andb_true_iff.
Qed.

Lemma basic_head (s : str) c r :
  basic_str s = true -> s = c :: r -> basic c = true.
Proof. intros H ->. simpl in H. now apply andb_true_iff in H as [H _]. Qed.

Section Agree.
Variable db : ucd.
Hypothesis Hdb : agrees_on_basic_latin db.
Variable ic : bool.

Lemma literal_agree av ch :
  basic av = true -> basic ch = true ->
  literal_matches db ic av ch = literal_matches basic_latin ic av ch.
Proof.
  intros Hav Hch. unfold literal_matches, unicode_iscased.
  destruct (Hdb av Hav) as (_ & _ & Hl & Hu & _).
  destruct (Hdb ch Hch) as (_ & _ & Hl' & _).
  rewrite Hl, Hu, Hl'. simpl unicode_tolower. simpl unicode_toupper.
  destruct (Hdb _ (@basic_tolower av Hav)) as (_ & _ & _ & _ & Hf).
  destruct (basic_latin_agrees _ (@basic_tolower av Hav)) as (_ & _ & _ & _ & Hf').
  rewrite (@not_among_fixes _ _ (@basic_tolower ch Hch) Hf).
  rewrite (@not_among_fixes _ _ (@basic_tolower ch Hch) Hf').
  reflexivity.
Qed.

Lemma category_agree k ch :
  basic ch = true -> in_category db k ch = in_category basic_latin k ch.
Proof.
  intros H. destruct k; try reflexivity. simpl. now destruct (Hdb ch H).
Qed.

Lemma is_word_agree ch :
  basic ch = true -> is_word db ch = is_word basic_latin ch.
Proof.
  intros H. unfold is_word. destruct (Hdb ch H) as (_ & -> & _). reflexivity.
Qed.

Lemma Matches_subject (db' : ucd) p : forall st st',
  Matches db' ic p st st' -> subject st' = subject st.
Proof.
  unfold subject.
  induction p as [|av|m k|p1 IH1 p2 IH2| | |p1 IH1]; intros st st'; simpl.
  - now intros ->.
  - intros (ch & Ha & _ & Hb & _). rewrite Ha, Hb. simpl.
    now rewrite <- app_assoc.
  - intros (w & Ha & _ & _ & Hb & _). rewrite Ha, Hb, rev_app_distr, rev_involutive.
    now rewrite <- app_assoc.
  - intros (mid & H1 & H2). rewrite (IH2 _ _ H2). now apply IH1.
  - now intros [_ ->].
  - now intros [_ ->].
  - intros (st1 & H1 & ->). simpl. now apply IH1.
Qed.

Lemma matches_agree p : forall st,
  basic_pattern p = true -> basic_str (subject st) = true ->
  matches db ic p st = matches basic_latin ic p st.
Proof.
  induction p as [|av|m k|p1 IH1 p2 IH2| | |p1 IH1]; intros st Hp Hs; simpl;
    try reflexivity; destruct (subject_basic st Hs) as [Hb Ha].
  - destruct (after st) as [|ch r] eqn:E; [reflexivity|].
    rewrite literal_agree; [reflexivity | exact Hp |].
    now apply (basic_head Ha eq_refl).
  - rewrite (@take_while_ext_in _ (in_category db k)
               (in_category basic_latin k)); [reflexivity|].
    intros x Hx. apply category_agree.
    unfold basic_str in Ha. rewrite forallb_forall in Ha. now apply Ha.
  - simpl in Hp. apply andb_true_iff in Hp as [Hp1 Hp2].
    rewrite IH1 by assumption. apply flat_map_ext_in.
    intros mid Hmid. apply IH2; [exact Hp2|].
    apply matches_iff, Matches_subject in Hmid. now rewrite Hmid.
  - unfold at_boundary.
    assert (Hw : forall s : str, basic_str s = true ->
                 match s with c :: _ => is_word db c | [] => false end
                 = match s with c :: _ => is_word basic_latin c | [] => false end).
    { intros [|c r] H; [reflexivity|]. apply is_word_agree.
      now apply (basic_head H eq_refl). }
    now rewrite (Hw _ Hb), (Hw _ Ha).
  - now rewrite IH1.
Qed.
End Agree.

Lemma basic_literals s : basic_pattern (literals s) = basic_str s.
Proof. induction s as [|c s IH]; simpl; [reflexivity | now rewrite IH]. Qed.

(** The header pattern on Basic Latin text. *)
Lemma header_agree db name line :
  agrees_on_basic_latin db ->
  basic_str name = true -> basic_str line = true ->
  re_match db (make_header_re name) line
  = re_match basic_latin (make_header_re name) line.
Proof.
  intros Hdb Hn Hl. unfold re_match, first_match.
  rewrite (matches_agree Hdb); [reflexivity | | exact Hl].
  cbn [make_header_re pat basic_pattern re_escape].
  rewrite basic_literals, Hn. reflexivity.
Qed.

(** The marker pattern consults no table at all. *)
Lemma matches_table_free db db' p : forall st,
  table_free p = true ->
  matches db false p st = matches db' false p st.
Proof.
  induction p as [|av|m k|p1 IH1 p2 IH2| | |p1 IH1]; intros st Hp; simpl;
    try reflexivity; try discriminate.
  - destruct k; try reflexivity. discriminate.
  - simpl in Hp. apply andb_true_iff in Hp as [Hp1 Hp2].
    rewrite (IH1 _ Hp1). apply flat_map_ext_in. intros mid _. now apply IH2.
  - now rewrite IH1.
Qed.

Lemma table_free_literals s : table_free (literals s) = true.
Proof. induction s; simpl; [reflexivity | assumption]. Qed.

Lemma marker_found_any_tables db db' block_id ln :
  marker_found db block_id ln = marker_found db' block_id ln.
Proof.
  unfold marker_found, re_search.
  cbn [make_marker_re pat IGNORECASE].
  set (p := LITERAL PIPE &> _).
  assert (Hp : table_free p = true).
  { unfold p. cbn [table_free re_escape]. now rewrite table_free_literals. }
  generalize (@nil codepoint) as b. clearbody p.
  induction ln as [|c ln IH]; intros b; simpl; unfold first_match;
    rewrite (matches_table_free db db' _ _ Hp);
    destruct (matches db' false p (start b _)); try reflexivity.
  apply IH.
Qed.

Lemma make_item_any_tables db db' block_id block_lines :
  make_item db block_id block_lines = make_item db' block_id block_lines.
Proof.
  unfold make_item, orig_lines. f_equal. f_equal. f_equal.
  apply filter_ext. intros ln. f_equal. apply marker_found_any_tables.
Qed.

Lemma scan_agree db name lines :
  agrees_on_basic_latin db ->
  basic_str name = true ->
  forallb basic_str lines = true ->
  forall fuel i results,
    scan db fuel name lines i results
    = scan basic_latin fuel name lines i results.
Proof.
  intros Hdb Hn Hl. induction fuel as [|fuel IH]; intros i results; simpl;
    [reflexivity|].
  destruct (nth_error lines i) as [ln|] eqn:E; [|reflexivity].
  unfold loop_body. rewrite (@header_agree db name ln Hdb Hn).
  - destruct (re_match basic_latin (make_header_re name) ln); [|apply IH].
    destruct (collect_block (length lines) lines (S i) []) as [[i' bl]|];
      [|reflexivity].
    rewrite (make_item_any_tables db basic_latin). apply IH.
  - rewrite forallb_forall in Hl. apply Hl. eapply nth_error_In, E.
Qed.

(** On Basic Latin text every database that agrees with the Basic Latin
    tables gives the records those tables give. *)
Lemma extract_agree db text name :
  agrees_on_basic_latin db ->
  basic_str name = true ->
  forallb basic_str (splitlines text) = true ->
  extract_from_text db text name = extract_from_text basic_latin text name.
Proof. intros. unfold extract_from_text. now apply scan_agree. Qed.
End TableFacts.

(** * The claims *)

Import PyStr Re Extractor.

(** C1. With name "Sherry", the five-line text of the scenario gives exactly
    one record, with id "DLG_Sherry001", orig "Hello there, traveler." and
    trans "Hallo da, Reisender."; the header pattern does not match the line
    "# DLG_Other002", which only ends the block. This holds whatever the
    interpreter's tables are outside Basic Latin. *)
Theorem sherry_scenario :
  forall db : ucd,
  agrees_on_basic_latin db ->
  extract_from_text db
    (text_of [u "# DLG_Sherry001"; u "; Hello there, traveler.";
              u "Hallo da, Reisender."; u "# DLG_Other002";
              u "; not matched"])
    (u "Sherry")
  = Some [{| id := u "DLG_Sherry001";
             orig := u "Hello there, traveler.";
             trans := u "Hallo da, Reisender." |}]
  /\ re_match db (make_header_re (u "Sherry")) (u "# DLG_Other002") = None.
Proof.
  intros db Hdb. split.
  - rewrite TableFacts.extract_agree;
      [vm_compute; reflexivity | exact Hdb | reflexivity
       | vm_compute; reflexivity].
  - rewrite TableFacts.header_agree;
      [vm_compute; reflexivity | exact Hdb | reflexivity | reflexivity].
Qed.

Lemma sherry_scenario_witness :
  agrees_on_basic_latin basic_latin
  /\ extract_from_text basic_latin
       (text_of [u "# DLG_Sherry001"; u "; Hello there, traveler.";
                 u "Hallo da, Reisender."; u "# DLG_Other002";
                 u "; not matched"])
       (u "Sherry")
     = Some [{| id := u "DLG_Sherry001";
                orig := u "Hello there, traveler.";
                trans := u "Hallo da, Reisender." |}].
Proof.
  split; [exact TableFacts.basic_latin_agrees|].
  exact (proj1 (sherry_scenario TableFacts.basic_latin_agrees)).
Defined.

(** C2. For every text and name, the records returned are those of the
    blocks of the text, in order, and the blocks are determined by the text:
    each block holds exactly the lines after a line the header pattern
    matches, up to and not including the next line that begins with "# "
    (whether or not the header pattern matches that line), or up to the end
    of the input. *)
Theorem block_extent :
  forall (db : ucd) (text name : str),
  exists blocks,
    Blocks db name (splitlines text) blocks
    /\ (forall blocks', Blocks db name (splitlines text) blocks' ->
        blocks' = blocks)
    /\ extract_from_text db text name
       = Some (List.map (item_of_block db) blocks).
Proof.
  intros db text name. unfold extract_from_text.
  destruct (@ScanFacts.scan_spec db name (splitlines text)
              (length (splitlines text)) 0 []) as (bs & HB & Hs); [lia|].
  exists bs. split; [exact HB|]. split; [|exact Hs].
  now apply ScanFacts.Blocks_functional.
Qed.

(** C3. For every byte sequence the decoding loop of [read_text_try] over
    [ENCODINGS] returns a text and an encoding, never the pair of [None]:
    latin-1, the last candidate, decodes every byte sequence. *)
Theorem decode_never_none :
  forall (os : host) (b : list byte),
  exists text e, decode_first os b ENCODINGS = Some (text, e).
Proof.
  intros os b. apply DecodeFacts.decode_first_ENCODINGS.
Qed.

(** C4. For every byte sequence the decoding loop returns the text and the
    name of the first encoding, in the order utf-8, utf-8-sig, utf-16,
    utf-16le, utf-16be, gbk, latin-1, under which decoding succeeds: every
    candidate listed before the one returned failed to decode the bytes. *)
Theorem decode_first_success :
  forall (os : host) (b : list byte),
  ENCODINGS = [utf_8; utf_8_sig; utf_16; utf_16le; utf_16be; gbk; latin_1]
  /\ exists text e earlier later,
       decode_first os b ENCODINGS = Some (text, e)
       /\ ENCODINGS = earlier ++ e :: later
       /\ Forall (fun e' => decode os e' b = None) earlier
       /\ decode os e b = Some text.
Proof.
  intros os b. split; [reflexivity|].
  destruct (DecodeFacts.decode_first_ENCODINGS os b) as (text & e & E).
  pose proof (DecodeFacts.decode_first_spec os b ENCODINGS) as Hs.
  rewrite E in Hs. destruct Hs as (earlier & later & H1 & H2 & H3).
  exists text, e, earlier, later. repeat split; assumption.
Qed.

(** C10. For every text and name, [extract_from_text] terminates. Each
    iteration of the outer loop moves the cursor strictly forward and never
    past the end: by one on a line the header pattern does not match, and
    past the header and every collected block line on a line it matches.
    The loop, run for as many iterations as there are lines, has finished
    and returned the results. *)
Theorem extract_from_text_terminates :
  forall (db : ucd) (text name : str),
  let lines := splitlines text in
  (forall i results ln,
     nth_error lines i = Some ln ->
     exists i' results',
       loop_body db name lines i results ln = Some (i', results')
       /\ i < i' <= length lines
       /\ match re_match db (make_header_re name) ln with
          | None => i' = S i
          | Some _ =>
              exists block_lines,
                collect_block (length lines) lines (S i) []
                = Some (i', block_lines)
                /\ i' = S i + length block_lines
          end)
  /\ exists results, scan db (length lines) name lines 0 [] = Some results
                     /\ extract_from_text db text name = Some results.
Proof.
  intros db text name lines. split.
  - intros i results ln E.
    assert (Hi : i < length lines) by (apply nth_error_Some; congruence).
    pose proof (@ScanFacts.loop_body_spec db name lines i results ln E) as Hb.
    destruct (re_match db (make_header_re name) ln) as [m|].
    + cbv zeta in Hb. eexists _, _. split; [exact Hb|].
      pose proof (@ScanFacts.take_while_length _ in_block
                    (skipn (S i) lines)) as Hl.
      rewrite length_skipn in Hl. split; [lia|].
      eexists. split; [|reflexivity].
      rewrite ScanFacts.collect_block_spec by lia. reflexivity.
    + eexists _, _. split; [exact Hb|]. split; [lia | reflexivity].
  - destruct (@ScanFacts.scan_spec db name lines (length lines) 0 [])
      as (bs & _ & Hs); [lia|].
    eexists. split; [exact Hs | exact Hs].
Qed.

Lemma extract_from_text_terminates_witness :
  let lines := splitlines (text_of [u "# A_Sherry1"; u "x"; u "# B"]) in
  nth_error lines 0 = Some (u "# A_Sherry1")
  /\ exists i' results',
       loop_body basic_latin (u "Sherry") lines 0 [] (u "# A_Sherry1")
       = Some (i', results')
       /\ 0 < i' <= length lines.
Proof.
  split; [reflexivity|].
  destruct (extract_from_text_terminates basic_latin
              (text_of [u "# A_Sherry1"; u "x"; u "# B"]) (u "Sherry"))
    as [Hstep _].
  destruct (Hstep 0 [] (u "# A_Sherry1") eq_refl) as (i' & rs & H1 & H2 & _).
  exists i', rs. split; assumption.
Defined.

(** C5. A line is recognised as a header exactly when the line itself, with
    no leading whitespace stripped, begins with the comment marker, optional
    whitespace, then at least one character, an underscore, the name in any
    case, at least one decimal digit and a word boundary; a line with
    whitespace before the comment marker is not recognised. *)
Theorem header_recognised_at_line_start :
  forall (db : ucd) (name line : str),
  unicode_iscased db HASH = false ->
  unicode_iscased db UNDERSCORE = false ->
  (re_match db (make_header_re name) line <> None
   <-> header_shape db name line)
  /\ (forall c rest,
        line = c :: rest -> isspace c = true ->
        re_match db (make_header_re name) line = None).
Proof.
  intros db name line Hh Hu.
  pose proof (@HeaderFacts.header_matches_iff db name line Hh Hu) as Hiff.
  split; [exact Hiff|].
  intros c rest -> Hc.
  destruct (re_match db (make_header_re name) (c :: rest)) eqn:E;
    [exfalso | reflexivity].
  assert (Hs : header_shape db name (c :: rest)) by (apply Hiff; congruence).
  destruct Hs as (ws & body & nm & ds & tail & Hl & _).
  injection Hl as -> _. discriminate Hc.
Qed.

Lemma header_recognised_at_line_start_witness :
  unicode_iscased basic_latin HASH = false
  /\ unicode_iscased basic_latin UNDERSCORE = false
  /\ header_shape basic_latin (u "Sherry") (u "# DLG_Sherry001").
Proof.
  split; [reflexivity|]. split; [reflexivity|].
  apply (header_recognised_at_line_start basic_latin (u "Sherry")
           (u "# DLG_Sherry001") eq_refl eq_refl).
  vm_compute. discriminate.
Defined.

(** The line " # DLG_Sherry001" has the header form once its leading
    whitespace is stripped, and the header pattern does not match it: no
    block starts there. *)
Lemma header_after_leading_space_not_recognised :
  header_shape basic_latin (u "Sherry") (lstrip (u " # DLG_Sherry001"))
  /\ re_match basic_latin (make_header_re (u "Sherry")) (u " # DLG_Sherry001")
     = None
  /\ extract_from_text basic_latin
       (text_of [u " # DLG_Sherry001"; u "; Hello"]) (u "Sherry")
     = Some [].
Proof.
  split; [|split; vm_compute; reflexivity].
  exists [SPACE], (u "DLG"), (u "Sherry"), (u "001"), [].
  vm_compute. repeat split; try discriminate.
  repeat constructor.
Qed.

(** C6. In every block, [orig] is made of the contributions of the
    commentary lines. A commentary line contributes itself without its whole
    leading run of ';' and space characters, every one of them and not only
    the first marker, and without its trailing whitespace; this text is
    determined by the line. The contributions that the redundant-marker
    pattern does not match are joined with line feeds, and the result,
    trimmed as a whole, is [orig]. *)
Theorem commentary_contribution :
  forall (db : ucd) (block_id : str) (block_lines : list str),
  exists contributions,
    Forall2 marker_stripped (filter is_commentary block_lines) contributions
    /\ (forall cs,
          Forall2 marker_stripped (filter is_commentary block_lines) cs ->
          cs = contributions)
    /\ orig (make_item db block_id block_lines)
       = strip (join [LF]
                  (filter (fun c => negb (marker_found db block_id c))
                          contributions)).
Proof.
  intros db block_id block_lines.
  exists (List.map strip_marker (filter is_commentary block_lines)).
  split; [apply ItemFacts.contributions_spec|].
  split; [intros cs Hcs; now apply ItemFacts.contributions_unique|].
  reflexivity.
Qed.

(** The lines ';; text' and '; ; a' do not keep their second ';': they
    contribute 'text' and 'a'. *)
Lemma second_marker_not_kept :
  orig_lines_raw [u ";; text"; u "; ; a"] = [u "text"; u "a"]
  /\ orig_lines_raw [u ";; text"] <> [u "; text"]
  /\ orig_lines_raw [u "; ; a"] <> [u "; a"]
  /\ extract_from_text basic_latin
       (text_of [u "# A_Sherry1"; u ";; text"]) (u "Sherry")
     = Some [{| id := u "A_Sherry1"; orig := u "text"; trans := [] |}].
Proof.
  split; [vm_compute; reflexivity|].
  split; [vm_compute; discriminate|].
  split; [vm_compute; discriminate | vm_compute; reflexivity].
Qed.

(** A tab is not among the characters stripped in front: the line
    [TAB; a] contributes itself unchanged, markers included, and only the
    trimming of the whole join removes a tab that starts [orig]. After
    another contribution the tab and the marker both stay. *)
Example indented_commentary_scenarios :
  strip_marker (9%N :: u "; a") = 9%N :: u "; a"
  /\ orig (make_item basic_latin (u "A_Sherry1") [9%N :: u "; a"]) = u "; a"
  /\ orig (make_item basic_latin (u "A_Sherry1") [u "; b"; 9%N :: u "; a"])
     = u "b" ++ [LF; 9%N] ++ u "; a"
  /\ orig (make_item basic_latin (u "A_Sherry1")
             [u "; | #A_Sherry1 |"; u "; b"]) = u "b".
Proof. repeat split; vm_compute; reflexivity. Qed.

(** C7. A block whose lines are all commentary has an empty [trans], and
    its [orig] is non-empty exactly when some line still has text after its
    leading markers and trailing whitespace are removed and is not a
    redundant-marker line. A block without commentary lines has an empty
    [orig], and its [trans] is non-empty exactly when some line is not
    blank. *)
Theorem one_sided_block :
  forall (db : ucd) (block_id : str) (block_lines : list str),
  let it := make_item db block_id block_lines in
  ((forall ln, In ln block_lines -> is_commentary ln = true) ->
   trans it = []
   /\ (orig it <> []
       <-> exists ln,
             In ln block_lines /\ strip_marker ln <> []
             /\ marker_found db block_id (strip_marker ln) = false))
  /\ ((forall ln, In ln block_lines -> is_commentary ln = false) ->
      orig it = []
      /\ (trans it <> [] <-> exists ln, In ln block_lines /\ strip ln <> [])).
Proof.
  intros db block_id block_lines it. unfold it. split; intros Hall.
  - split.
    + apply ItemFacts.not_nonempty. rewrite ItemFacts.trans_nonempty_iff.
      intros (ln & Hin & Hc & _). rewrite (Hall ln Hin) in Hc. discriminate.
    + rewrite ItemFacts.orig_nonempty_iff. split.
      * intros (ln & Hin & _ & Hne & Hm). now exists ln.
      * intros (ln & Hin & Hne & Hm). exists ln.
        repeat split; try assumption. now apply Hall.
  - split.
    + apply ItemFacts.not_nonempty. rewrite ItemFacts.orig_nonempty_iff.
      intros (ln & Hin & Hc & _). rewrite (Hall ln Hin) in Hc. discriminate.
    + rewrite ItemFacts.trans_nonempty_iff. split.
      * intros (ln & Hin & _ & Hne). now exists ln.
      * intros (ln & Hin & Hne). exists ln.
        repeat split; try assumption. now apply Hall.
Qed.

Lemma one_sided_block_witness :
  ((forall ln, In ln [u "; hi"] -> is_commentary ln = true)
   /\ trans (make_item basic_latin (u "A_Sherry1") [u "; hi"]) = [])
  /\ ((forall ln, In ln [u "ho"] -> is_commentary ln = false)
      /\ orig (make_item basic_latin (u "A_Sherry1") [u "ho"]) = []).
Proof.
  assert (H1 : forall ln, In ln [u "; hi"] -> is_commentary ln = true)
    by (intros ln [<-|[]]; reflexivity).
  assert (H2 : forall ln, In ln [u "ho"] -> is_commentary ln = false)
    by (intros ln [<-|[]]; reflexivity).
  split; split; try assumption.
  - exact (proj1 (proj1 (one_sided_block basic_latin (u "A_Sherry1")
                           [u "; hi"]) H1)).
  - exact (proj1 (proj2 (one_sided_block basic_latin (u "A_Sherry1")
                           [u "ho"]) H2)).
Defined.

(** A block whose only line is ';' is all commentary and has an empty
    [orig]; a block whose only line is a blank has no commentary and has
    an empty [trans]. *)
Lemma one_sided_block_may_be_empty :
  (forallb is_commentary [u ";"] = true
   /\ extract_from_text basic_latin
        (text_of [u "# A_Sherry1"; u ";"]) (u "Sherry")
      = Some [{| id := u "A_Sherry1"; orig := []; trans := [] |}])
  /\ (forallb (fun ln => negb (is_commentary ln)) [u " "] = true
      /\ extract_from_text basic_latin
           (text_of [u "# A_Sherry1"; u " "]) (u "Sherry")
         = Some [{| id := u "A_Sherry1"; orig := []; trans := [] |}]).
Proof. repeat split; vm_compute; reflexivity. Qed.

(** C8. Every record in the output of [walk_and_extract] has a non-empty
    [orig] or a non-empty [trans], and every record with a non-empty field
    that [extract_from_text] returns for a file that is walked, not skipped
    and decoded is in the output. The filter is the caller's:
    [extract_from_text] itself returns the record of a block whose fields
    are both empty. *)
Theorem walk_keeps_nonempty_records :
  (forall (db : ucd) (os : host) (root name : str) (out : list item),
     walk_and_extract db os root name = Ok out ->
     Forall (fun it => orig it <> [] \/ trans it <> []) out
     /\ forall dirpath dirs files fn text enc items it,
          In (dirpath, dirs, files) (os_walk os root) ->
          skipped_dir db dirpath = false ->
          In fn files ->
          skipped_file db fn = false ->
          read_text_try os (os_path_join os dirpath fn)
          = Ok (Some (text, enc)) ->
          extract_from_text db text name = Some items ->
          In it items ->
          orig it <> [] \/ trans it <> [] ->
          In it out)
  /\ extract_from_text basic_latin (u "# A_Sherry1") (u "Sherry")
     = Some [{| id := u "A_Sherry1"; orig := []; trans := [] |}].
Proof.
  split; [|vm_compute; reflexivity].
  intros db os root name out H. unfold walk_and_extract in H.
  apply WalkFacts.walk_dirs_spec in H as (added & -> & Hk & Hin).
  simpl. split.
  - apply Forall_forall. intros it Hit. apply WalkFacts.keep_iff.
    rewrite forallb_forall in Hk. now apply Hk.
  - intros dirpath dirs files fn text enc items it Hd Hs Hf Hsf Hr He Hi Hne.
    apply (Hin dirpath dirs files fn it Hd Hs Hf).
    split; [exact Hsf|]. exists text, enc, items.
    repeat split; try assumption. now apply WalkFacts.keep_iff.
Qed.

Lemma walk_keeps_nonempty_records_witness :
  walk_and_extract basic_latin sample_host (u ".") (u "Sherry")
  = Ok [{| id := u "A_Sherry1"; orig := u "hi"; trans := u "ho" |}]
  /\ Forall (fun it => orig it <> [] \/ trans it <> [])
            [{| id := u "A_Sherry1"; orig := u "hi"; trans := u "ho" |}].
Proof.
  assert (H : walk_and_extract basic_latin sample_host (u ".") (u "Sherry")
              = Ok [{| id := u "A_Sherry1"; orig := u "hi"; trans := u "ho" |}])
    by (vm_compute; reflexivity).
  split; [exact H|].
  exact (proj1 (proj1 walk_keeps_nonempty_records basic_latin sample_host
                  (u ".") (u "Sherry") _ H)).
Defined.

(** C9. In a block with id DLG_Sherry001 the line
    '| Name: |#DLG_Sherry001| |' is excluded from [orig]: the redundant
    marker pattern of the block matches it, it is none of the lines that
    make up [orig], and its text occurs nowhere in [orig], whatever the
    lines of the block are. *)
Theorem self_id_marker_excluded :
  forall (db : ucd) (block_lines : list str),
  let block_id := u "DLG_Sherry001" in
  let line := u "| Name: |#DLG_Sherry001| |" in
  marker_found db block_id line = true
  /\ ~ In line (orig_lines db block_id block_lines)
  /\ contains line (orig (make_item db block_id block_lines)) = false.
Proof.
  intros db block_lines block_id line.
  assert (Hc : contains (marker_text block_id) line = true)
    by (vm_compute; reflexivity).
  assert (Hm : marker_found db block_id line = true)
    by (now apply MarkerFacts.marker_found_in).
  split; [exact Hm|]. split.
  - intros Hin. apply MarkerFacts.orig_lines_no_marker in Hin. congruence.
  - apply MarkerFacts.marker_text_absent; [|exact Hc].
    vm_compute. intuition discriminate.
Qed.

(** ** Further scenarios *)

(** The row as a commentary line is dropped from [orig]; the bare row is
    not commentary and is a translation line. *)
Example marker_row_scenarios :
  extract_from_text basic_latin
    (text_of [u "# DLG_Sherry001"; u "; Hello";
              u "; | Name: |#DLG_Sherry001| |"; u "Hallo"])
    (u "Sherry")
  = Some [{| id := u "DLG_Sherry001"; orig := u "Hello"; trans := u "Hallo" |}]
  /\ extract_from_text basic_latin
       (text_of [u "# DLG_Sherry001"; u "; Hello";
                 u "| Name: |#DLG_Sherry001| |"])
       (u "Sherry")
     = Some [{| id := u "DLG_Sherry001"; orig := u "Hello";
                trans := u "| Name: |#DLG_Sherry001| |" |}].
Proof. split; vm_compute; reflexivity. Qed.

(** The greedy repeats give characters back in order: in "# _Sherry1" the
    whitespace run first takes the space and finds no character left for
    [.+], then gives it back, so the group starts at the space and the id is
    its stripped text. A digit run followed by a letter ends at no word
    boundary. The name matches in any case and the id keeps the case of the
    line. *)
Example header_scenarios :
  option_map group_id
    (re_match basic_latin (make_header_re (u "Sherry")) (u "# _Sherry1"))
  = Some (u " _Sherry1")
  /\ re_match basic_latin (make_header_re (u "Sherry")) (u "# DLG_Sherry12a")
     = None
  /\ option_map group_id
       (re_match basic_latin (make_header_re (u "Sherry"))
                 (u "#dlg_sHERRY7 and more"))
     = Some (u "dlg_sHERRY7")
  /\ option_map group_id
       (re_match basic_latin (make_header_re (u "Sherry"))
                 (u "# a_Sherry1 b_Sherry22 c"))
     = Some (u "a_Sherry1 b_Sherry22").
Proof. repeat split; vm_compute; reflexivity. Qed.

(** A header line without a space after the comment marker starts a block
    and ends none; a line that only begins with "# " ends one. *)
Example block_end_scenarios :
  extract_from_text basic_latin
    (text_of [u "#A_Sherry1"; u "; one"; u "#B_Sherry2"; u "two";
              u "# note"; u "three"])
    (u "Sherry")
  = Some [{| id := u "A_Sherry1"; orig := u "one";
             trans := text_of [u "#B_Sherry2"; u "two"] |}].
Proof. vm_compute; reflexivity. Qed.

(** Line boundaries: CR LF is one boundary and a final terminator opens no
    empty line. *)
Example splitlines_scenarios :
  splitlines (u "a" ++ [CR; LF] ++ u "b" ++ [LF]) = [u "a"; u "b"]
  /\ splitlines (u "a" ++ [LF; LF] ++ u "b") = [u "a"; []; u "b"]
  /\ splitlines [] = []
  /\ splitlines [LF] = [[]].
Proof. repeat split; vm_compute; reflexivity. Qed.

(** * Further properties *)

Unset Implicit Arguments.

(** ** Records and header lines *)

Module BlockProps.
Import PyStr Re Extractor Props.

Lemma subseq_app_l (A : Type) (l a b : list A) :
  subseq l b -> subseq l (a ++ b).
Proof. intros H. induction a; simpl; [exact H | now constructor]. Qed.

Lemma subseq_length (A : Type) (l1 l2 : list A) :
  subseq l1 l2 -> length l1 <= length l2.
Proof. induction 1; simpl; lia. Qed.

Section Blocks.
Variable db : ucd.
Variable name : str.

Lemma header_ids_app l1 l2 :
  header_ids db name (l1 ++ l2) = header_ids db name l1 ++ header_ids db name l2.
Proof. unfold header_ids. apply flat_map_app. Qed.

Lemma header_ids_cons_some ln m rest :
  re_match db (make_header_re name) ln = Some m ->
  header_ids db name (ln :: rest)
  = strip (group_id m) :: header_ids db name rest.
Proof. intros H. unfold header_ids, header_id. simpl. now rewrite H. Qed.

Lemma header_ids_cons_none ln rest :
  re_match db (make_header_re name) ln = None ->
  header_ids db name (ln :: rest) = header_ids db name rest.
Proof. intros H. unfold header_ids, header_id. simpl. now rewrite H. Qed.

(** The ids of the blocks are ids of header lines, in their order. *)
Lemma Blocks_subseq lines bs :
  Blocks db name lines bs ->
  subseq (List.map fst bs) (header_ids db name lines).
Proof.
  induction 1 as [|ln rest bs Hn _ IH|ln rest m bl rest' bs Hm -> Hb Hr _ IH].
  - constructor.
  - now rewrite (header_ids_cons_none _ _ Hn).
  - rewrite (header_ids_cons_some _ _ _ Hm), header_ids_app. simpl.
    apply subseq_take. now apply subseq_app_l.
Qed.

(** Lines that do not begin with ['# '] hold no header when every header
    line begins with it. *)
Lemma header_ids_inside lines :
  (forall ln, In ln lines ->
     re_match db (make_header_re name) ln <> None ->
     startswith [HASH; SPACE] ln = true) ->
  Forall (fun l => startswith [HASH; SPACE] l = false) lines ->
  header_ids db name lines = [].
Proof.
  intros Hh Hb. induction lines as [|ln lines IH]; [reflexivity|].
  inversion Hb as [|? ? Hln Hrest]; subst.
  destruct (re_match db (make_header_re name) ln) as [m|] eqn:E.
  - assert (startswith [HASH; SPACE] ln = true)
      by (apply Hh; [now left | congruence]).
    congruence.
  - rewrite (header_ids_cons_none _ _ E). apply IH; [|exact Hrest].
    intros l Hl. apply Hh. now right.
Qed.

Lemma Blocks_all_headers lines bs :
  (forall ln, In ln lines ->
     re_match db (make_header_re name) ln <> None ->
     startswith [HASH; SPACE] ln = true) ->
  Blocks db name lines bs ->
  List.map fst bs = header_ids db name lines.
Proof.
  intros Hh HB. revert Hh.
  induction HB as [|ln rest bs Hn _ IH|ln rest m bl rest' bs Hm -> Hb Hr _ IH];
    intros Hh.
  - reflexivity.
  - rewrite (header_ids_cons_none _ _ Hn). apply IH.
    intros l Hl. apply Hh. now right.
  - rewrite (header_ids_cons_some _ _ _ Hm), header_ids_app. simpl.
    rewrite header_ids_inside; [|
      intros l Hl; apply Hh; right; apply in_or_app; now left | exact Hb].
    simpl. f_equal. apply IH.
    intros l Hl. apply Hh. right. apply in_or_app. now right.
Qed.

(** A line that begins with ['# '] separates what comes before it from
    what comes after. *)
Lemma Blocks_app l1 b1 l2 b2 :
  match l2 with
  | [] => True
  | l :: _ => startswith [HASH; SPACE] l = true
  end ->
  Blocks db name l1 b1 -> Blocks db name l2 b2 ->
  Blocks db name (l1 ++ l2) (b1 ++ b2).
Proof.
  intros Hl2 H1 H2.
  induction H1 as [|ln rest bs Hn _ IH|ln rest m bl rest' bs Hm -> Hb Hr _ IH];
    simpl.
  - exact H2.
  - now constructor.
  - rewrite <- app_assoc.
    eapply Blocks_header with (rest' := rest' ++ l2); try eassumption.
    + reflexivity.
    + destruct rest' as [|l r]; simpl; [exact Hl2 | exact Hr].
Qed.

(** Every block comes from a line of the input that the header pattern
    matches, and its lines are lines of the input. *)
Lemma Blocks_origin lines bs :
  Blocks db name lines bs ->
  forall b, In b bs ->
    (exists ln m,
       In ln lines /\ re_match db (make_header_re name) ln = Some m
       /\ fst b = strip (group_id m))
    /\ forall l, In l (snd b) -> In l lines.
Proof.
  induction 1 as [|ln rest bs Hn _ IH|ln rest m bl rest' bs Hm -> Hb Hr _ IH];
    intros b Hin.
  - destruct Hin.
  - destruct (IH b Hin) as [(l & m & Hl & Hm & Hf) Hs]. split.
    + exists l, m. repeat split; [now right | exact Hm | exact Hf].
    + intros x Hx. right. now apply Hs.
  - destruct Hin as [<-|Hin].
    + split.
      * exists ln, m. repeat split; [now left | exact Hm].
      * simpl. intros x Hx. right. apply in_or_app. now left.
    + destruct (IH b Hin) as [(l & m' & Hl & Hm' & Hf) Hs]. split.
      * exists l, m'. repeat split; [|exact Hm' | exact Hf].
        right. apply in_or_app. now right.
      * intros x Hx. right. apply in_or_app. right. now apply Hs.
Qed.

Lemma map_id_items bs :
  List.map id (List.map (item_of_block db) bs) = List.map fst bs.
Proof. rewrite map_map. reflexivity. Qed.

(** The records of a text, as blocks. *)
Lemma extract_blocks text :
  exists bs,
    Blocks db name (splitlines text) bs
    /\ extract_from_text db text name = Some (List.map (item_of_block db) bs).
Proof.
  unfold extract_from_text.
  destruct (@ScanFacts.scan_spec db name (splitlines text)
              (length (splitlines text)) 0 []) as (bs & HB & Hs); [lia|].
  now exists bs.
Qed.
End Blocks.
End BlockProps.

Import Props Output.

(** X1. The ids of the records are ids of header lines of the text, in the
    order of those lines: no record is invented or moved, and there are at
    most as many records as there are lines the header pattern matches. *)
Theorem records_follow_header_lines :
  forall (db : ucd) (text name : str),
  exists items,
    extract_from_text db text name = Some items
    /\ subseq (List.map id items) (header_ids db name (splitlines text))
    /\ length items <= length (header_ids db name (splitlines text)).
Proof.
  intros db text name.
  destruct (BlockProps.extract_blocks db name text) as (bs & HB & He).
  exists (List.map (item_of_block db) bs). split; [exact He|].
  assert (Hs : subseq (List.map id (List.map (item_of_block db) bs))
                      (header_ids db name (splitlines text))).
  { rewrite BlockProps.map_id_items. now apply BlockProps.Blocks_subseq. }
  split; [exact Hs|].
  apply BlockProps.subseq_length in Hs. now rewrite length_map in Hs.
Qed.

(** X2. When every line that the header pattern matches begins with "# ",
    each of them gives a record: the ids of the records are exactly the ids
    of the header lines, in order. *)
Theorem no_header_lost :
  forall (db : ucd) (text name : str),
  (forall ln, In ln (splitlines text) ->
     re_match db (make_header_re name) ln <> None ->
     startswith [HASH; SPACE] ln = true) ->
  exists items,
    extract_from_text db text name = Some items
    /\ List.map id items = header_ids db name (splitlines text).
Proof.
  intros db text name Hh.
  destruct (BlockProps.extract_blocks db name text) as (bs & HB & He).
  exists (List.map (item_of_block db) bs). split; [exact He|].
  rewrite BlockProps.map_id_items. now apply BlockProps.Blocks_all_headers.
Qed.

(** ** The shape of the fields *)

Module FieldProps.
Import PyStr Re Extractor Props ReFacts.

Lemma strip_trimmed s : trimmed (strip s).
Proof.
  unfold trimmed, strip, lstrip. split.
  - destruct (rstrip (drop_while isspace s)) as [|c r] eqn:E; [exact I|].
    apply StrFacts.rstrip_head in E as (r' & E).
    now apply drop_while_head in E.
  - destruct (StrFacts.rstrip_split (drop_while isspace s)) as (_ & _ & _ & H).
    exact H.
Qed.

Lemma drop_while_app_stop (A : Type) (p : A -> bool) a r :
  match r with [] => True | x :: _ => p x = false end ->
  drop_while p (a ++ r) = drop_while p a ++ r.
Proof.
  intros H. induction a as [|x a IH]; simpl.
  - now apply drop_while_stop.
  - destruct (p x); [exact IH | reflexivity].
Qed.

(** Stripping a text whose tail neither begins nor ends with whitespace
    only removes the whitespace in front. *)
Lemma strip_app_core a r :
  match r with [] => False | x :: _ => isspace x = false end ->
  match rev r with [] => False | x :: _ => isspace x = false end ->
  strip (a ++ r) = drop_while isspace a ++ r.
Proof.
  intros Hh Hl. unfold strip, lstrip, rstrip.
  rewrite drop_while_app_stop by (destruct r; [destruct Hh | exact Hh]).
  rewrite rev_app_distr, drop_while_stop.
  - now rewrite <- rev_app_distr, rev_involutive.
  - destruct (rev r) as [|x l]; [destruct Hl|]. exact Hl.
Qed.

Lemma firstn_app_minus (A : Type) (x b : list A) :
  firstn (length (x ++ b) - length b) (x ++ b) = x.
Proof.
  rewrite length_app. replace (length x + length b - length b) with (length x) by lia.
  apply firstn_exact.
Qed.

(** What the group of a match of the header pattern holds. *)
Lemma header_group db name line m :
  unicode_iscased db UNDERSCORE = false ->
  re_match db (make_header_re name) line = Some m ->
  exists body nm ds,
    group_id m = body ++ UNDERSCORE :: nm ++ ds
    /\ body <> []
    /\ Forall2 (fun av ch => literal_matches db true av ch = true) name nm
    /\ ds <> [] /\ forallb (Py_UNICODE_ISDECIMAL db) ds = true.
Proof.
  intros Hu Hm. unfold re_match, first_match in Hm.
  change (hd_error (matches db true (pat (make_header_re name))
                            (start [] line)) = Some m) in Hm.
  assert (Hin : In m (matches db true (pat (make_header_re name))
                              (start [] line))).
  { destruct (matches db true (pat (make_header_re name)) (start [] line));
      [discriminate|]. injection Hm as ->. now left. }
  apply matches_iff in Hin.
  cbn [make_header_re pat IGNORECASE Matches re_escape] in Hin.
  destruct Hin as (m1 & _ & m2 & _ & m3 & _
                   & m4 & (g1 & (a & (body & _ & _ & Hlb & Hb3 & _)
                                 & b & (us & _ & Hl4 & Hb4 & _)
                                 & c & Hnm & ds & _ & Hds & Hld & Hb5 & _) & ->)
                   & _ & ->).
  apply HeaderFacts.uncased_literal in Hl4; [|exact Hu]. subst us.
  apply HeaderFacts.Matches_literals in Hnm as (nm & _ & Hnm & Hb6 & _).
  exists body, nm, ds. repeat split; try assumption.
  - unfold group_id, close_group. cbn [group].
    rewrite Hb5, Hb6, Hb4, Hb3.
    replace (rev ds ++ rev nm ++ UNDERSCORE :: rev body ++ before m3)
      with ((rev ds ++ rev nm ++ UNDERSCORE :: rev body) ++ before m3)
      by (now rewrite <- !app_assoc).
    rewrite firstn_app_minus, !rev_app_distr. simpl.
    rewrite !rev_involutive, <- !app_assoc. reflexivity.
  - destruct body; [simpl in Hlb; lia | discriminate].
  - destruct ds; [simpl in Hld; lia | discriminate].
Qed.

Lemma latin_decimal_not_space c :
  Py_UNICODE_ISDECIMAL basic_latin c = true -> isspace c = false.
Proof.
  simpl. unfold Latin.is_decimal. intros H.
  apply andb_true_iff in H as [H1 H2]. apply N.leb_le in H1, H2.
  destruct (isspace c) eqn:E; [exfalso | reflexivity].
  unfold isspace in E.
  repeat (apply orb_true_iff in E; destruct E as [E|E]);
    try (apply andb_true_iff in E as [E1 E2]; apply N.leb_le in E1, E2; lia);
    apply N.eqb_eq in E; lia.
Qed.
End FieldProps.

(** X3. Every field of every record is trimmed: neither the id, nor [orig],
    nor [trans] begins or ends with a whitespace character. *)
Theorem record_fields_trimmed :
  forall (db : ucd) (text name : str),
  exists items,
    extract_from_text db text name = Some items
    /\ Forall (fun it => trimmed (id it) /\ trimmed (orig it)
                         /\ trimmed (trans it)) items.
Proof.
  intros db text name.
  destruct (BlockProps.extract_blocks db name text) as (bs & HB & He).
  exists (List.map (item_of_block db) bs). split; [exact He|].
  apply Forall_forall. intros it Hit.
  apply in_map_iff in Hit as (b & <- & Hb).
  destruct (BlockProps.Blocks_origin db name _ _ HB b Hb)
    as [(ln & m & _ & _ & Hf) _].
  unfold item_of_block, make_item. cbn [id orig trans]. rewrite Hf.
  repeat split; apply FieldProps.strip_trimmed.
Qed.

(** X4. Every record id ends with an underscore, the name in some case and
    at least one decimal digit, after what is left of the text before the
    underscore: the id has the form <prefix>_<name><digits>. *)
Theorem record_id_shape :
  forall (db : ucd) (text name : str),
  unicode_iscased db UNDERSCORE = false ->
  (forall c, Py_UNICODE_ISDECIMAL db c = true -> isspace c = false) ->
  exists items,
    extract_from_text db text name = Some items
    /\ Forall (fun it =>
                 exists prefix nm ds,
                   id it = prefix ++ UNDERSCORE :: nm ++ ds
                   /\ Forall2 (fun av ch => literal_matches db true av ch = true)
                              name nm
                   /\ ds <> []
                   /\ forallb (Py_UNICODE_ISDECIMAL db) ds = true) items.
Proof.
  intros db text name Hu Hd.
  destruct (BlockProps.extract_blocks db name text) as (bs & HB & He).
  exists (List.map (item_of_block db) bs). split; [exact He|].
  apply Forall_forall. intros it Hit.
  apply in_map_iff in Hit as (b & <- & Hb).
  destruct (BlockProps.Blocks_origin db name _ _ HB b Hb)
    as [(ln & m & _ & Hm & Hf) _].
  destruct (FieldProps.header_group db name ln m Hu Hm)
    as (body & nm & ds & Hg & _ & Hnm & Hne & Hds).
  exists (drop_while isspace body), nm, ds.
  repeat split; try assumption.
  unfold item_of_block, make_item. cbn [id]. rewrite Hf, Hg.
  apply FieldProps.strip_app_core; [reflexivity|].
  change (UNDERSCORE :: nm ++ ds) with ((UNDERSCORE :: nm) ++ ds).
  rewrite rev_app_distr.
  destruct (exists_last Hne) as (l & d & ->).
  rewrite rev_app_distr. simpl. apply Hd.
  rewrite forallb_app in Hds. apply andb_true_iff in Hds as [_ Hds].
  simpl in Hds. now apply andb_true_iff in Hds as [Hds _].
Qed.

Lemma record_id_shape_witness :
  unicode_iscased basic_latin UNDERSCORE = false
  /\ (forall c, Py_UNICODE_ISDECIMAL basic_latin c = true -> isspace c = false)
  /\ exists items,
       extract_from_text basic_latin
         (text_of [u "#  x y_sherry07 tail"; u "; hi"]) (u "Sherry")
       = Some items.
Proof.
  split; [reflexivity|]. split; [exact FieldProps.latin_decimal_not_space|].
  destruct (record_id_shape basic_latin
              (text_of [u "#  x y_sherry07 tail"; u "; hi"]) (u "Sherry")
              eq_refl FieldProps.latin_decimal_not_space) as (items & H & _).
  now exists items.
Defined.

(** X5. A line that begins with "# " is a hard boundary: when the lines of a
    text are those of a first text followed by those of a second whose first
    line begins with "# ", its records are the records of the first text
    followed by the records of the second. *)
Theorem records_compose_at_boundary :
  forall (db : ucd) (text text1 text2 name : str),
  splitlines text = splitlines text1 ++ splitlines text2 ->
  match splitlines text2 with
  | [] => True
  | l :: _ => startswith [HASH; SPACE] l = true
  end ->
  exists items1 items2,
    extract_from_text db text1 name = Some items1
    /\ extract_from_text db text2 name = Some items2
    /\ extract_from_text db text name = Some (items1 ++ items2).
Proof.
  intros db text text1 text2 name Hs Hb.
  destruct (BlockProps.extract_blocks db name text1) as (b1 & HB1 & He1).
  destruct (BlockProps.extract_blocks db name text2) as (b2 & HB2 & He2).
  destruct (BlockProps.extract_blocks db name text) as (b & HB & He).
  exists (List.map (item_of_block db) b1), (List.map (item_of_block db) b2).
  split; [exact He1|]. split; [exact He2|].
  rewrite He, <- map_app. do 2 f_equal.
  rewrite Hs in HB.
  apply (ScanFacts.Blocks_functional
           (BlockProps.Blocks_app db name _ _ _ _ Hb HB1 HB2)).
  exact HB.
Qed.

Lemma records_compose_at_boundary_witness :
  exists items1 items2,
    extract_from_text basic_latin
      (text_of [u "# A_Sherry1"; u "; one"]) (u "Sherry") = Some items1
    /\ extract_from_text basic_latin
         (text_of [u "# B_Sherry2"; u "two"]) (u "Sherry") = Some items2
    /\ extract_from_text basic_latin
         (text_of [u "# A_Sherry1"; u "; one"; u "# B_Sherry2"; u "two"])
         (u "Sherry")
       = Some (items1 ++ items2).
Proof.
  apply (records_compose_at_boundary basic_latin
           (text_of [u "# A_Sherry1"; u "; one"; u "# B_Sherry2"; u "two"])
           (text_of [u "# A_Sherry1"; u "; one"])
           (text_of [u "# B_Sherry2"; u "two"]) (u "Sherry")).
  - vm_compute. reflexivity.
  - vm_compute. reflexivity.
Defined.

Lemma no_header_lost_witness :
  exists items,
    extract_from_text basic_latin
      (text_of [u "# A_Sherry1"; u "; one"; u "# B_Sherry2"; u "two"])
      (u "Sherry")
    = Some items
    /\ List.map id items
       = header_ids basic_latin (u "Sherry")
           (splitlines
              (text_of [u "# A_Sherry1"; u "; one"; u "# B_Sherry2"; u "two"])).
Proof.
  apply (no_header_lost basic_latin
           (text_of [u "# A_Sherry1"; u "; one"; u "# B_Sherry2"; u "two"])
           (u "Sherry")).
  intros ln Hin Hne. vm_compute in Hin.
  destruct Hin as [<-|[<-|[<-|[<-|[]]]]]; try reflexivity;
    exfalso; apply Hne; vm_compute; reflexivity.
Defined.

(** ** The directory walk and the aggregation *)

Module WalkProps.
Import PyStr Re Extractor Props Output.

Section Walk.
Variable db : ucd.
Variable os : host.
Variable name : str.

Lemma read_text_try_cases path :
  (open_read os path = None /\ read_text_try os path = Raise)
  \/ (exists b text enc,
        open_read os path = Some b
        /\ read_text_try os path = Ok (Some (text, enc))).
Proof.
  unfold read_text_try. destruct (open_read os path) as [b|]; [right | now left].
  destruct (DecodeFacts.decode_first_ENCODINGS os b) as (text & enc & ->).
  now exists b, text, enc.
Qed.

(** The file loop raises exactly when it reaches a file it cannot read,
    and otherwise returns. *)
Lemma scan_files_result dirpath : forall files out,
  match scan_files db os name dirpath files out with
  | Ok _ =>
      forall fn, In fn files -> skipped_file db fn = false ->
                 open_read os (os_path_join os dirpath fn) <> None
  | Raise =>
      exists fn, In fn files /\ skipped_file db fn = false
                 /\ open_read os (os_path_join os dirpath fn) = None
  | Diverge => False
  end.
Proof.
  induction files as [|fn files IH]; intros out; simpl.
  - intros fn [].
  - destruct (skipped_file db fn) eqn:Es.
    + specialize (IH out).
      destruct (scan_files db os name dirpath files out).
      * intros f [<-|Hf] Hs; [congruence | now apply IH].
      * destruct IH as (f & Hf & Hs & Hr). exists f. now repeat split; [right|..].
      * exact IH.
    + destruct (read_text_try_cases (os_path_join os dirpath fn))
        as [[Hn ->]|(b & text & enc & Hb & ->)].
      * exists fn. repeat split; [now left | exact Es | exact Hn].
      * destruct (ScanFacts.extract_from_text_returns db text name)
          as (items & ->).
        specialize (IH (out ++ filter keep items)).
        destruct (scan_files db os name dirpath files
                    (out ++ filter keep items)).
        -- intros f [<-|Hf] Hs; [congruence | now apply IH].
        -- destruct IH as (f & Hf & Hs & Hr). exists f.
           now repeat split; [right|..].
        -- exact IH.
Qed.

Lemma walk_dirs_result : forall entries out,
  match walk_dirs db os name entries out with
  | Ok _ =>
      forall dirpath dirs files fn,
        In (dirpath, dirs, files) entries -> skipped_dir db dirpath = false ->
        In fn files -> skipped_file db fn = false ->
        open_read os (os_path_join os dirpath fn) <> None
  | Raise =>
      exists dirpath dirs files fn,
        In (dirpath, dirs, files) entries /\ skipped_dir db dirpath = false
        /\ In fn files /\ skipped_file db fn = false
        /\ open_read os (os_path_join os dirpath fn) = None
  | Diverge => False
  end.
Proof.
  induction entries as [|[[dirpath dirs] files] entries IH]; intros out; simpl.
  - intros ? ? ? ? [].
  - destruct (skipped_dir db dirpath) eqn:Es.
    + specialize (IH out). destruct (walk_dirs db os name entries out).
      * intros d ds fs fn [E|He] Hs Hf Hsf;
          [injection E as <- <- <-; congruence | now apply (IH d ds fs)].
      * destruct IH as (d & ds & fs & fn & He & H).
        exists d, ds, fs, fn. split; [now right | exact H].
      * exact IH.
    + pose proof (scan_files_result dirpath files out) as Hf.
      destruct (scan_files db os name dirpath files out) as [mid| |].
      * specialize (IH mid). destruct (walk_dirs db os name entries mid).
        -- intros d ds fs fn [E|He] Hs Hin Hsf;
             [injection E as <- <- <-; now apply Hf | now apply (IH d ds fs)].
        -- destruct IH as (d & ds & fs & fn & He & H).
           exists d, ds, fs, fn. split; [now right | exact H].
        -- exact IH.
      * destruct Hf as (fn & Hin & Hs & Hr).
        exists dirpath, dirs, files, fn. repeat split; try assumption. now left.
      * exact Hf.
Qed.

(** What has been collected is kept as it is: the walk only appends. *)
Lemma scan_files_appends dirpath : forall files out,
  scan_files db os name dirpath files out
  = match scan_files db os name dirpath files [] with
    | Ok added => Ok (out ++ added)
    | Raise => Raise
    | Diverge => Diverge
    end.
Proof.
  induction files as [|fn files IH]; intros out; simpl.
  - now rewrite app_nil_r.
  - destruct (skipped_file db fn); [apply IH|].
    destruct (read_text_try os (os_path_join os dirpath fn))
      as [[[text enc]|]| |]; try reflexivity; [|apply IH].
    destruct (extract_from_text db text name) as [items|]; [|reflexivity].
    rewrite (IH (out ++ filter keep items)), (IH (filter keep items)).
    destruct (scan_files db os name dirpath files []); try reflexivity.
    simpl. now rewrite app_assoc.
Qed.

Lemma walk_dirs_appends : forall entries out,
  walk_dirs db os name entries out
  = match walk_dirs db os name entries [] with
    | Ok added => Ok (out ++ added)
    | Raise => Raise
    | Diverge => Diverge
    end.
Proof.
  induction entries as [|[[dirpath dirs] files] entries IH]; intros out; simpl.
  - now rewrite app_nil_r.
  - destruct (skipped_dir db dirpath); [apply IH|].
    rewrite (scan_files_appends dirpath files out).
    destruct (scan_files db os name dirpath files []) as [added| |];
      try reflexivity.
    rewrite (IH (out ++ added)), (IH added).
    destruct (walk_dirs db os name entries []); try reflexivity.
    now rewrite app_assoc.
Qed.

Lemma walk_dirs_app : forall entries1 entries2 out,
  walk_dirs db os name (entries1 ++ entries2) out
  = match walk_dirs db os name entries1 out with
    | Ok mid => walk_dirs db os name entries2 mid
    | Raise => Raise
    | Diverge => Diverge
    end.
Proof.
  induction entries1 as [|[[dirpath dirs] files] entries1 IH];
    intros entries2 out; simpl; [reflexivity|].
  destruct (skipped_dir db dirpath); [apply IH|].
  destruct (scan_files db os name dirpath files out); try reflexivity.
  apply IH.
Qed.
End Walk.

Lemma decode_first_ext os1 os2 b :
  (forall e x, codec os1 e x = codec os2 e x) ->
  forall encodings, decode_first os1 b encodings = decode_first os2 b encodings.
Proof.
  intros Hc. induction encodings as [|e rest IH]; simpl; [reflexivity|].
  assert (He : decode os1 e b = decode os2 e b)
    by (destruct e; simpl; try apply Hc; reflexivity).
  rewrite He, IH. reflexivity.
Qed.

Lemma scan_files_ext db os1 os2 name dirpath :
  (forall d f, os_path_join os1 d f = os_path_join os2 d f) ->
  (forall e x, codec os1 e x = codec os2 e x) ->
  forall files out,
  (forall fn, In fn files -> skipped_file db fn = false ->
     open_read os1 (os_path_join os1 dirpath fn)
     = open_read os2 (os_path_join os1 dirpath fn)) ->
  scan_files db os1 name dirpath files out
  = scan_files db os2 name dirpath files out.
Proof.
  intros Hj Hc. induction files as [|fn files IH]; intros out Hr; simpl;
    [reflexivity|].
  assert (Hrest : forall f, In f files -> skipped_file db f = false ->
            open_read os1 (os_path_join os1 dirpath f)
            = open_read os2 (os_path_join os1 dirpath f))
    by (intros f Hf; apply Hr; now right).
  destruct (skipped_file db fn) eqn:Es; [now apply IH|].
  unfold read_text_try. rewrite <- Hj, <- (Hr fn (or_introl eq_refl) Es).
  destruct (open_read os1 (os_path_join os1 dirpath fn)) as [b|];
    [|reflexivity].
  rewrite <- (decode_first_ext os1 os2 b Hc).
  destruct (decode_first os1 b ENCODINGS) as [[text enc]|]; [|now apply IH].
  destruct (extract_from_text db text name); [now apply IH | reflexivity].
Qed.

Lemma walk_dirs_ext db os1 os2 name :
  (forall d f, os_path_join os1 d f = os_path_join os2 d f) ->
  (forall e x, codec os1 e x = codec os2 e x) ->
  forall entries out,
  (forall dirpath dirs files fn,
     In (dirpath, dirs, files) entries -> skipped_dir db dirpath = false ->
     In fn files -> skipped_file db fn = false ->
     open_read os1 (os_path_join os1 dirpath fn)
     = open_read os2 (os_path_join os1 dirpath fn)) ->
  walk_dirs db os1 name entries out = walk_dirs db os2 name entries out.
Proof.
  intros Hj Hc.
  induction entries as [|[[dirpath dirs] files] entries IH]; intros out Hr;
    simpl; [reflexivity|].
  assert (Hrest : forall d ds fs fn,
            In (d, ds, fs) entries -> skipped_dir db d = false ->
            In fn fs -> skipped_file db fn = false ->
            open_read os1 (os_path_join os1 d fn)
            = open_read os2 (os_path_join os1 d fn))
    by (intros d ds fs fn He; apply (Hr d ds fs); now right).
  destruct (skipped_dir db dirpath) eqn:Es; [now apply IH|].
  rewrite (scan_files_ext db os1 os2 name dirpath Hj Hc files out).
  - destruct (scan_files db os2 name dirpath files out); try reflexivity.
    now apply IH.
  - intros fn Hf Hs. apply (Hr dirpath dirs files); try assumption. now left.
Qed.

Lemma contains_In sub s c :
  contains sub s = true -> In c sub -> In c s.
Proof.
  intros H Hc. apply StrFacts.contains_iff in H as (a & b & ->).
  apply in_or_app. right. apply in_or_app. now left.
Qed.
End WalkProps.

(** X6. When the walk returns its output, every file it opens, that is
    every file that passes the extension filter in a directory that is not
    skipped, has been read: a file that cannot be read is never passed over
    silently. *)
Theorem walk_returns_only_if_all_read :
  forall (db : ucd) (os : host) (root name : str) (out : list item),
  walk_and_extract db os root name = Ok out ->
  forall path, scanned db os root path ->
    exists b, open_read os path = Some b.
Proof.
  intros db os root name out H path
         (d & ds & fs & fn & Hd & Hs & Hf & Hsf & ->).
  unfold walk_and_extract in H.
  pose proof (WalkProps.walk_dirs_result db os name (os_walk os root) [])
    as Hr.
  rewrite H in Hr. specialize (Hr d ds fs fn Hd Hs Hf Hsf).
  destruct (open_read os (os_path_join os d fn)) as [b|];
    [now exists b | now destruct Hr].
Qed.

Lemma walk_returns_only_if_all_read_witness :
  walk_and_extract basic_latin sample_host (u ".") (u "Sherry")
  = Ok [{| id := u "A_Sherry1"; orig := u "hi"; trans := u "ho" |}]
  /\ scanned basic_latin sample_host (u ".") (u "./a.txt")
  /\ exists b, open_read sample_host (u "./a.txt") = Some b.
Proof.
  assert (H : walk_and_extract basic_latin sample_host (u ".") (u "Sherry")
              = Ok [{| id := u "A_Sherry1"; orig := u "hi"; trans := u "ho" |}])
    by (vm_compute; reflexivity).
  assert (Hs : scanned basic_latin sample_host (u ".") (u "./a.txt")).
  { exists (u "."), [], [u "a.txt"], (u "a.txt").
    repeat split; try reflexivity; now left. }
  split; [exact H|]. split; [exact Hs|].
  exact (walk_returns_only_if_all_read basic_latin sample_host (u ".")
           (u "Sherry") _ H _ Hs).
Defined.

(** X7. The walk reads no other file than those it opens: two hosts with
    the same directory listing, path joining and codecs, which agree on the
    content of the files that pass both filters, give the same result,
    whatever the skipped files and the files of skipped directories hold
    and whether or not they can be read. *)
Theorem walk_reads_only_scanned_files :
  forall (db : ucd) (os1 os2 : host) (root name : str),
  os_walk os1 root = os_walk os2 root ->
  (forall d f, os_path_join os1 d f = os_path_join os2 d f) ->
  (forall e b, codec os1 e b = codec os2 e b) ->
  (forall path, scanned db os1 root path ->
     open_read os1 path = open_read os2 path) ->
  walk_and_extract db os1 root name = walk_and_extract db os2 root name.
Proof.
  intros db os1 os2 root name Hw Hj Hc Hr. unfold walk_and_extract.
  rewrite <- Hw. apply WalkProps.walk_dirs_ext; try assumption.
  intros d ds fs fn Hd Hs Hf Hsf. apply Hr. now exists d, ds, fs, fn.
Qed.

(** X8. A directory path without a backslash is never skipped: each of the
    four skip patterns begins with a backslash, so on paths separated by
    '/' the directories .git, debug, system and build are walked like any
    other. *)
Theorem slash_paths_never_skipped :
  forall (db : ucd) (dirpath : str),
  ~ In BACKSLASH (str_lower db dirpath) ->
  skipped_dir db dirpath = false.
Proof.
  intros db dirpath Hn. unfold skipped_dir.
  destruct (existsb (fun skip => contains skip (str_lower db dirpath))
                    skip_dirs) eqn:E; [exfalso | reflexivity].
  apply existsb_exists in E as (skip & Hs & Hc). apply Hn.
  apply (WalkProps.contains_In skip _ _ Hc).
  unfold skip_dirs in Hs. simpl in Hs.
  destruct Hs as [<-|[<-|[<-|[<-|[]]]]]; now left.
Qed.

(** X9. The walk only appends: the records collected before a directory is
    visited are kept as they are, in front of what the directory adds, and
    walking two lists of directories one after the other is walking their
    concatenation. *)
Theorem walk_accumulates :
  forall (db : ucd) (os : host) (name : str)
         (entries1 entries2 : list (str * list str * list str))
         (out : list item),
  walk_dirs db os name entries1 out
  = match walk_dirs db os name entries1 [] with
    | Ok added => Ok (out ++ added)
    | Raise => Raise
    | Diverge => Diverge
    end
  /\ walk_dirs db os name (entries1 ++ entries2) out
     = match walk_dirs db os name entries1 out with
       | Ok mid => walk_dirs db os name entries2 mid
       | Raise => Raise
       | Diverge => Diverge
       end.
Proof.
  intros. split; [apply WalkProps.walk_dirs_appends | apply WalkProps.walk_dirs_app].
Qed.

(** ** The written text determines the records *)

Module OutputProps.
Import PyStr Extractor Props Output.

Lemma after_prefix_app p : forall s, after_prefix p (p ++ s) = Some s.
Proof.
  induction p as [|x p IH]; intros s; simpl; [reflexivity|].
  now rewrite N.eqb_refl.
Qed.

Lemma hex_digit_unhex n : (n < 16)%N -> unhex (hex_digit n) = n.
Proof.
  intros H. unfold hex_digit, unhex.
  destruct (n <? 10)%N eqn:E.
  - apply N.ltb_lt in E.
    replace (48 + n <? 58)%N with true by (symmetry; apply N.ltb_lt; lia). lia.
  - apply N.ltb_ge in E.
    replace (87 + n <? 58)%N with false by (symmetry; apply N.ltb_ge; lia). lia.
Qed.

(** Reading an escaped character gives the character back. *)
Lemma scanstring_escape c rest :
  scanstring (escape_char c ++ rest) = option_map (cons_fst c) (scanstring rest).
Proof.
  unfold escape_char.
  destruct (c =? QUOTE)%N eqn:E1; [apply N.eqb_eq in E1; now subst|].
  destruct (c =? BACKSLASH)%N eqn:E2; [apply N.eqb_eq in E2; now subst|].
  destruct (c =? 8)%N eqn:E3; [apply N.eqb_eq in E3; now subst|].
  destruct (c =? 12)%N eqn:E4; [apply N.eqb_eq in E4; now subst|].
  destruct (c =? LF)%N eqn:E5; [apply N.eqb_eq in E5; now subst|].
  destruct (c =? CR)%N eqn:E6; [apply N.eqb_eq in E6; now subst|].
  destruct (c =? 9)%N eqn:E7; [apply N.eqb_eq in E7; now subst|].
  destruct (c <? 32)%N eqn:E8.
  - apply N.ltb_lt in E8.
    change (scanstring ([BACKSLASH; 117; 48; 48; hex_digit (c / 16);
                         hex_digit (c mod 16)]%N ++ rest))
      with (option_map
              (cons_fst (16 * unhex (hex_digit (c / 16))
                         + unhex (hex_digit (c mod 16)))%N)
              (scanstring rest)).
    rewrite !hex_digit_unhex.
    + now rewrite <- (N.div_mod c 16) by lia.
    + apply N.mod_lt. lia.
    + apply N.Div0.div_lt_upper_bound. lia.
  - simpl. now rewrite E1, E2.
Qed.

Lemma scanstring_encoded s : forall rest,
  scanstring (flat_map escape_char s ++ QUOTE :: rest) = Some (s, rest).
Proof.
  induction s as [|c s IH]; intros rest; [reflexivity|].
  simpl flat_map. rewrite <- app_assoc, scanstring_escape, IH. reflexivity.
Qed.

Lemma json_dumps_shape it rest :
  json_dumps it ++ rest
  = open_id ++ flat_map escape_char (id it) ++ QUOTE
    :: open_orig ++ flat_map escape_char (orig it) ++ QUOTE
    :: open_trans ++ flat_map escape_char (trans it) ++ QUOTE
    :: u "}" ++ rest.
Proof.
  unfold json_dumps, open_id, open_orig, open_trans, encode_basestring.
  repeat (rewrite <- ?app_assoc; simpl). reflexivity.
Qed.

(** Reading the JSON text of a record gives the record back. *)
Lemma read_item_dumps it rest :
  read_item (json_dumps it ++ rest) = Some (it, rest).
Proof.
  rewrite json_dumps_shape. unfold read_item.
  rewrite after_prefix_app, scanstring_encoded.
  rewrite after_prefix_app, scanstring_encoded.
  rewrite after_prefix_app, scanstring_encoded.
  rewrite after_prefix_app. now destruct it.
Qed.

Lemma json_dumps_cancel a b r1 r2 :
  json_dumps a ++ r1 = json_dumps b ++ r2 -> a = b /\ r1 = r2.
Proof.
  intros H. apply (f_equal read_item) in H.
  rewrite !read_item_dumps in H. injection H as -> ->. now split.
Qed.

(** CSV fields. *)
Lemma unquote_encoded s : forall rest,
  match rest with [] => True | d :: _ => (d =? QUOTE)%N = false end ->
  unquote (flat_map double_quote s ++ QUOTE :: rest) = Some (s, rest).
Proof.
  induction s as [|c s IH]; intros rest Hr.
  - simpl. destruct rest as [|d r]; [reflexivity | now rewrite Hr].
  - simpl flat_map. unfold double_quote at 1.
    destruct (c =? QUOTE)%N eqn:E.
    + apply N.eqb_eq in E. subst c. simpl. now rewrite IH.
    + simpl. now rewrite E, IH.
Qed.

Lemma parse_field_encoded f d rest :
  csv_special d = true -> (d =? QUOTE)%N = false ->
  parse_field (csv_field f ++ d :: rest) = Some (f, d :: rest).
Proof.
  intros Hd Hq. unfold csv_field.
  destruct (existsb csv_special f) eqn:E.
  - simpl. rewrite <- app_assoc. simpl.
    now apply (unquote_encoded f (d :: rest)).
  - assert (Hall : forallb (fun x => negb (csv_special x)) f = true).
    { apply forallb_forall. intros x Hx.
      destruct (csv_special x) eqn:Ex; [|reflexivity].
      assert (existsb csv_special f = true)
        by (apply existsb_exists; now exists x).
      congruence. }
    assert (Hstop : match d :: rest with
                    | [] => True
                    | x :: _ => negb (csv_special x) = false
                    end) by (simpl; now rewrite Hd).
    assert (Hsplit :
      Some (take_while (fun x => negb (csv_special x)) (f ++ d :: rest),
            drop_while (fun x => negb (csv_special x)) (f ++ d :: rest))
      = Some (f, d :: rest)).
    { set (p := fun x => negb (csv_special x)) in *.
      rewrite (@take_while_app _ p f (d :: rest) Hall),
              (@drop_while_app _ p f (d :: rest) Hall),
              (@take_while_stop _ p (d :: rest) Hstop),
              (@drop_while_stop _ p (d :: rest) Hstop).
      now rewrite app_nil_r. }
    destruct f as [|c f]; simpl app.
    + unfold parse_field. rewrite Hq. exact Hsplit.
    + unfold parse_field.
      assert (Hc : (c =? QUOTE)%N = false).
      { simpl in Hall. apply andb_true_iff in Hall as [Hc _].
        unfold csv_special in Hc. destruct (c =? QUOTE)%N; [|reflexivity].
        now rewrite !orb_true_r in Hc. }
      rewrite Hc. exact Hsplit.
Qed.

Lemma read_row_written a b c rest :
  read_row (csv_row a b c ++ rest) = Some (a, b, c, rest).
Proof.
  unfold csv_row, read_row. rewrite <- !app_assoc. simpl app.
  rewrite (parse_field_encoded a COMMA _ eq_refl eq_refl).
  change (after_prefix [COMMA] (COMMA :: ?x)) with (Some x). cbv beta iota.
  rewrite (parse_field_encoded b COMMA _ eq_refl eq_refl).
  change (after_prefix [COMMA] (COMMA :: ?x)) with (Some x). cbv beta iota.
  rewrite (parse_field_encoded c CR _ eq_refl eq_refl).
  reflexivity.
Qed.

Lemma csv_row_cancel a b c r1 a' b' c' r2 :
  csv_row a b c ++ r1 = csv_row a' b' c' ++ r2 ->
  a = a' /\ b = b' /\ c = c' /\ r1 = r2.
Proof.
  intros H. apply (f_equal read_row) in H.
  rewrite !read_row_written in H. injection H as -> -> -> ->. tauto.
Qed.
End OutputProps.

(** X11. The JSONL text determines the records: two lists of records for
    which [save_jsonl] writes the same text are the same list, so nothing
    of a record (quotes, backslashes, line breaks, control characters) is
    lost or confused in the file. *)
Theorem jsonl_text_determines_records :
  forall items1 items2 : list item,
  save_jsonl items1 = save_jsonl items2 -> items1 = items2.
Proof.
  unfold save_jsonl.
  induction items1 as [|a l1 IH]; intros [|b l2] H; cbn [flat_map] in H.
  - reflexivity.
  - exfalso. rewrite <- app_assoc, OutputProps.json_dumps_shape in H.
    unfold open_id in H. simpl in H. discriminate H.
  - exfalso. rewrite <- app_assoc, OutputProps.json_dumps_shape in H.
    unfold open_id in H. simpl in H. discriminate H.
  - rewrite <- !app_assoc in H.
    apply OutputProps.json_dumps_cancel in H as [-> H].
    injection H as H. f_equal. now apply IH.
Qed.

Lemma jsonl_text_determines_records_witness :
  save_jsonl [{| id := u "A_Sherry1"; orig := u "hi"; trans := u "ho" |}]
  = save_jsonl [{| id := u "A_Sherry1"; orig := u "hi"; trans := u "ho" |}]
  /\ [{| id := u "A_Sherry1"; orig := u "hi"; trans := u "ho" |}]
     = [{| id := u "A_Sherry1"; orig := u "hi"; trans := u "ho" |}].
Proof.
  split; [reflexivity|].
  exact (jsonl_text_determines_records _ _ eq_refl).
Defined.

(** X12. The CSV text determines the records: two lists of records for
    which [save_csv] writes the same text are the same list; fields that
    hold commas, quotes or line breaks are quoted so that the rows and
    their three fields can be told apart. *)
Theorem csv_text_determines_records :
  forall items1 items2 : list item,
  save_csv items1 = save_csv items2 -> items1 = items2.
Proof.
  unfold save_csv. intros items1 items2 H. apply app_inv_head in H.
  revert items2 H.
  induction items1 as [|a l1 IH]; intros [|b l2] H; cbn [flat_map] in H.
  - reflexivity.
  - exfalso. apply (f_equal read_row) in H.
    rewrite OutputProps.read_row_written in H. discriminate H.
  - exfalso. apply (f_equal read_row) in H.
    rewrite OutputProps.read_row_written in H. discriminate H.
  - apply OutputProps.csv_row_cancel in H as (Hi & Ho & Ht & H).
    f_equal; [|now apply IH].
    destruct a, b; simpl in *; now subst.
Qed.

Lemma csv_text_determines_records_witness :
  save_csv [{| id := u "A,1"; orig := u "hi"; trans := [] |}]
  = save_csv [{| id := u "A,1"; orig := u "hi"; trans := [] |}]
  /\ [{| id := u "A,1"; orig := u "hi"; trans := [] |}]
     = [{| id := u "A,1"; orig := u "hi"; trans := @nil codepoint |}].
Proof.
  split; [reflexivity|].
  exact (csv_text_determines_records _ _ eq_refl).
Defined.

(** ** One line for each record *)

Module LineProps.
Import PyStr Re Extractor Props Output ReFacts.

Lemma printable_inline c : (32 <= c)%N -> (c < 133)%N -> inline c = true.
Proof.
  intros H1 H2. unfold inline, line_boundary, is_linebreak, CR, LF.
  repeat match goal with
         | |- context [(c =? ?k)%N] =>
             replace (c =? k)%N with false by (symmetry; apply N.eqb_neq; lia)
         end.
  reflexivity.
Qed.

Lemma hex_digit_inline n : (n < 16)%N -> inline (hex_digit n) = true.
Proof.
  intros H. unfold hex_digit.
  destruct (n <? 10)%N; apply printable_inline; lia.
Qed.

(** The JSON text of a character holds no line boundary, unless the
    character is one of the three that are written as they are. *)
Lemma escape_char_inline c :
  line_boundary c = false \/ (c <? 32)%N = true ->
  forallb inline (escape_char c) = true.
Proof.
  intros Hc. unfold escape_char.
  destruct (c =? QUOTE)%N; [reflexivity|].
  destruct (c =? BACKSLASH)%N; [reflexivity|].
  destruct (c =? 8)%N; [reflexivity|].
  destruct (c =? 12)%N; [reflexivity|].
  destruct (c =? LF)%N; [reflexivity|].
  destruct (c =? CR)%N; [reflexivity|].
  destruct (c =? 9)%N; [reflexivity|].
  destruct (c <? 32)%N eqn:E.
  - apply N.ltb_lt in E.
    cbn [forallb]. rewrite !hex_digit_inline; [reflexivity | |].
    + apply N.mod_lt. lia.
    + apply N.Div0.div_lt_upper_bound. lia.
  - destruct Hc as [Hc|Hc]; [|discriminate].
    simpl. unfold inline. now rewrite Hc.
Qed.

Lemma encode_basestring_inline s :
  no_raw_boundary s -> forallb inline (encode_basestring s) = true.
Proof.
  intros H. unfold encode_basestring. simpl.
  rewrite forallb_app. simpl. rewrite andb_true_r.
  induction s as [|c s IH]; [reflexivity|]. simpl.
  rewrite forallb_app, escape_char_inline, IH; [reflexivity | |].
  - intros x Hx. apply H. now right.
  - apply H. now left.
Qed.

Lemma json_dumps_inline it :
  clean_item it -> forallb inline (json_dumps it) = true.
Proof.
  intros (Hi & Ho & Ht). unfold json_dumps.
  rewrite !forallb_app.
  rewrite (encode_basestring_inline (id it) Hi),
          (encode_basestring_inline (orig it) Ho),
          (encode_basestring_inline (trans it) Ht).
  reflexivity.
Qed.

(** A segment without line boundaries that ends with LF is one line. *)
Lemma splitlines_segment seg : forall cur rest,
  forallb inline seg = true ->
  splitlines_from cur (seg ++ LF :: rest)
  = (rev cur ++ seg) :: splitlines_from [] rest.
Proof.
  induction seg as [|c seg IH]; intros cur rest H.
  - simpl. now rewrite app_nil_r.
  - simpl in H. apply andb_true_iff in H as [Hc Hs].
    unfold inline, line_boundary in Hc. apply negb_true_iff in Hc.
    apply orb_false_iff in Hc as [Hc Hl].
    apply orb_false_iff in Hc as [Hcr Hlf].
    cbn [app splitlines_from]. rewrite Hcr, Hlf, Hl. cbn [orb].
    rewrite IH by exact Hs. simpl. now rewrite <- app_assoc.
Qed.

Lemma splitlines_jsonl items :
  Forall clean_item items ->
  splitlines (save_jsonl items) = List.map json_dumps items.
Proof.
  unfold splitlines, save_jsonl.
  induction 1 as [|it items Hit _ IH]; [reflexivity|].
  cbn [flat_map List.map]. rewrite <- app_assoc.
  change ([LF] ++ ?x) with (LF :: x).
  rewrite splitlines_segment by now apply json_dumps_inline.
  now rewrite IH.
Qed.

(** The lines that [splitlines] returns hold no line boundary. *)
Lemma splitlines_from_inline : forall n s cur,
  length s <= n ->
  forallb inline cur = true ->
  Forall (fun ln => forallb inline ln = true) (splitlines_from cur s).
Proof.
  assert (Hrev : forall cur, forallb inline cur = true ->
                             forallb inline (rev cur) = true)
    by (intros cur H; now rewrite StrFacts.forallb_rev).
  induction n as [|n IH]; intros s cur Hn Hc.
  - destruct s; [|simpl in Hn; lia]. cbn [splitlines_from].
    destruct cur; constructor; [now apply Hrev | constructor].
  - destruct s as [|c s]; cbn [splitlines_from].
    { destruct cur; constructor; [now apply Hrev | constructor]. }
    simpl in Hn.
    destruct (c =? CR)%N eqn:Ecr.
    + destruct s as [|c' s'].
      * constructor; [now apply Hrev | constructor].
      * simpl in Hn.
        destruct (c' =? LF)%N; constructor; try (now apply Hrev);
          apply IH; simpl; try lia; reflexivity.
    + destruct ((c =? LF)%N || is_linebreak c) eqn:El.
      * constructor; [now apply Hrev|]. apply IH; [lia | reflexivity].
      * apply IH; [lia|]. cbn [forallb]. rewrite Hc, andb_true_r.
        unfold inline, line_boundary. rewrite Ecr. cbn [orb].
        now rewrite El.
Qed.

Lemma splitlines_inline text ln :
  In ln (splitlines text) -> forallb inline ln = true.
Proof.
  intros H.
  pose proof (splitlines_from_inline (length text) text [] (le_n _) eq_refl)
    as Hall.
  rewrite Forall_forall in Hall. now apply Hall.
Qed.

(** The characters of what the string methods return are characters of
    what they are given. *)
Lemma In_drop_while (A : Type) (p : A -> bool) l x :
  In x (drop_while p l) -> In x l.
Proof.
  induction l as [|y l IH]; simpl; [tauto|].
  destruct (p y); [intros H; right; now apply IH | tauto].
Qed.

Lemma In_firstn (A : Type) (x : A) : forall n l,
  In x (firstn n l) -> In x l.
Proof.
  induction n as [|n IH]; intros [|y l]; simpl; try tauto.
  intros [H|H]; [now left | right; now apply IH].
Qed.

Lemma In_rstrip s c : In c (rstrip s) -> In c s.
Proof.
  unfold rstrip. intros H. apply in_rev in H.
  apply In_drop_while in H. now apply in_rev.
Qed.

Lemma In_strip s c : In c (strip s) -> In c s.
Proof.
  unfold strip, lstrip. intros H. apply In_rstrip in H.
  now apply In_drop_while in H.
Qed.

Lemma In_join ls c :
  In c (join [LF] ls) -> c = LF \/ exists l, In l ls /\ In c l.
Proof.
  induction ls as [|l ls IH]; [intros []|].
  destruct ls as [|l' ls].
  - intros H. right. exists l. split; [now left | exact H].
  - change (join [LF] (l :: l' :: ls))
      with (l ++ LF :: join [LF] (l' :: ls)).
    intros H. apply in_app_or in H as [H|[H|H]].
    + right. exists l. split; [now left | exact H].
    + now left.
    + destruct (IH H) as [E|(x & Hx & Hc)]; [now left|].
      right. exists x. split; [now right | exact Hc].
Qed.

Lemma no_raw_boundary_joined ls :
  (forall l, In l ls -> forallb inline l = true) ->
  no_raw_boundary (strip (join [LF] ls)).
Proof.
  intros H c Hc. apply In_strip, In_join in Hc as [->|(l & Hl & Hc)].
  - now right.
  - left. specialize (H l Hl). rewrite forallb_forall in H.
    specialize (H c Hc). unfold inline in H. now apply negb_true_iff in H.
Qed.

Lemma inline_sub (s t : str) :
  (forall c, In c s -> In c t) ->
  forallb inline t = true -> forallb inline s = true.
Proof.
  intros Hs Ht. apply forallb_forall. intros c Hc.
  rewrite forallb_forall in Ht. now apply Ht, Hs.
Qed.

Section Fields.
Variable db : ucd.

(** The group of a match of the header pattern is text of the line. *)
Lemma group_id_in_line name line m c :
  re_match db (make_header_re name) line = Some m ->
  In c (group_id m) -> In c line.
Proof.
  intros Hm Hc. unfold re_match, first_match in Hm.
  change (hd_error (matches db true (pat (make_header_re name))
                            (start [] line)) = Some m) in Hm.
  assert (Hin : In m (matches db true (pat (make_header_re name))
                              (start [] line))).
  { destruct (matches db true (pat (make_header_re name)) (start [] line));
      [discriminate|]. injection Hm as ->. now left. }
  apply matches_iff in Hin.
  pose proof (TableFacts.Matches_subject true db _ _ _ Hin) as Hs.
  cbn [make_header_re pat IGNORECASE Matches re_escape] in Hin.
  destruct Hin as (m1 & _ & m2 & _ & m3 & _ & m4 & (g1 & _ & ->) & _ & ->).
  unfold subject in Hs. cbn [start before after close_group] in Hs.
  simpl in Hs. rewrite <- Hs.
  unfold group_id, close_group in Hc. cbn [group] in Hc.
  apply in_rev in Hc. rewrite ?rev_involutive in Hc.
  apply In_firstn in Hc.
  apply in_or_app. left. now apply (proj1 (in_rev _ _)).
Qed.

Lemma make_item_clean block_id block_lines :
  no_raw_boundary block_id ->
  (forall l, In l block_lines -> forallb inline l = true) ->
  clean_item (make_item db block_id block_lines).
Proof.
  intros Hi Hl. unfold clean_item, make_item. cbn [id orig trans].
  split; [exact Hi|]. split; apply no_raw_boundary_joined.
  - intros l H. unfold orig_lines in H. apply filter_In in H as [H _].
    unfold orig_lines_raw in H. apply in_map_iff in H as (ln & <- & H).
    apply filter_In in H as [H _].
    apply (inline_sub _ ln); [|now apply Hl].
    intros c Hc. unfold strip_marker, lstrip_chars in Hc.
    apply In_rstrip in Hc. now apply In_drop_while in Hc.
  - intros l H. unfold trans_lines in H.
    apply in_map_iff in H as (ln & <- & H). apply filter_In in H as [H _].
    apply (inline_sub _ ln); [|now apply Hl].
    intros c Hc. now apply In_rstrip in Hc.
Qed.

(** The records of a text are clean. *)
Lemma extract_clean text name items :
  extract_from_text db text name = Some items -> Forall clean_item items.
Proof.
  intros He.
  destruct (BlockProps.extract_blocks db name text) as (bs & HB & He').
  rewrite He in He'. injection He' as ->.
  apply Forall_forall. intros it Hit.
  apply in_map_iff in Hit as (b & <- & Hb).
  destruct (BlockProps.Blocks_origin db name _ _ HB b Hb)
    as [(ln & m & Hln & Hm & Hf) Hs].
  apply make_item_clean.
  - rewrite Hf. intros c Hc. left. apply In_strip in Hc.
    apply (group_id_in_line name ln m c Hm) in Hc.
    pose proof (splitlines_inline text ln Hln) as Hall.
    rewrite forallb_forall in Hall. specialize (Hall c Hc).
    unfold inline in Hall. now apply negb_true_iff in Hall.
  - intros l Hl. apply (splitlines_inline text). now apply Hs.
Qed.
End Fields.
End LineProps.

(** ** Where the aggregated records come from *)

Module OriginProps.
Import PyStr Re Extractor Props Output.

Section Origin.
Variable db : ucd.
Variable os : host.
Variable name : str.

Lemma scan_files_origin dirpath : forall files out out',
  scan_files db os name dirpath files out = Ok out' ->
  exists added,
    out' = out ++ added
    /\ forall it, In it added ->
         keep it = true
         /\ exists fn b text enc recs,
              In fn files /\ skipped_file db fn = false
              /\ open_read os (os_path_join os dirpath fn) = Some b
              /\ decode_first os b ENCODINGS = Some (text, enc)
              /\ extract_from_text db text name = Some recs
              /\ In it recs.
Proof.
  induction files as [|fn files IH]; intros out out' H; simpl in H.
  - injection H as <-. exists []. rewrite app_nil_r. split; [reflexivity|].
    intros it [].
  - assert (Hlift : forall added,
      (forall it, In it added ->
         keep it = true
         /\ exists f b text enc recs,
              In f files /\ skipped_file db f = false
              /\ open_read os (os_path_join os dirpath f) = Some b
              /\ decode_first os b ENCODINGS = Some (text, enc)
              /\ extract_from_text db text name = Some recs /\ In it recs) ->
      forall it, In it added ->
         keep it = true
         /\ exists f b text enc recs,
              In f (fn :: files) /\ skipped_file db f = false
              /\ open_read os (os_path_join os dirpath f) = Some b
              /\ decode_first os b ENCODINGS = Some (text, enc)
              /\ extract_from_text db text name = Some recs /\ In it recs).
    { intros added Ha it Hit.
      destruct (Ha it Hit) as (Hk & f & b & text & enc & recs & Hf & Hrest).
      split; [exact Hk|]. exists f, b, text, enc, recs.
      split; [now right | exact Hrest]. }
    destruct (skipped_file db fn) eqn:Es.
    { destruct (IH _ _ H) as (added & -> & Ha). exists added.
      split; [reflexivity | now apply Hlift]. }
    unfold read_text_try in H.
    destruct (open_read os (os_path_join os dirpath fn)) as [b|] eqn:Eo;
      [|discriminate].
    destruct (decode_first os b ENCODINGS) as [[text enc]|] eqn:Ed.
    + destruct (extract_from_text db text name) as [recs|] eqn:Ee;
        [|discriminate].
      destruct (IH _ _ H) as (added & -> & Ha).
      exists (filter keep recs ++ added). rewrite app_assoc.
      split; [reflexivity|]. intros it Hit.
      apply in_app_or in Hit as [Hit|Hit]; [|now apply (Hlift added)].
      apply filter_In in Hit as [Hit Hk]. split; [exact Hk|].
      exists fn, b, text, enc, recs. repeat split; try assumption. now left.
    + destruct (IH _ _ H) as (added & -> & Ha). exists added.
      split; [reflexivity | now apply Hlift].
Qed.

Lemma walk_dirs_origin : forall entries out out',
  walk_dirs db os name entries out = Ok out' ->
  exists added,
    out' = out ++ added
    /\ forall it, In it added ->
         keep it = true
         /\ exists dirpath dirs files fn b text enc recs,
              In (dirpath, dirs, files) entries
              /\ skipped_dir db dirpath = false
              /\ In fn files /\ skipped_file db fn = false
              /\ open_read os (os_path_join os dirpath fn) = Some b
              /\ decode_first os b ENCODINGS = Some (text, enc)
              /\ extract_from_text db text name = Some recs
              /\ In it recs.
Proof.
  induction entries as [|[[dirpath dirs] files] entries IH];
    intros out out' H; simpl in H.
  - injection H as <-. exists []. rewrite app_nil_r. split; [reflexivity|].
    intros it [].
  - assert (Hlift : forall it,
      (exists d ds fs fn b text enc recs,
         In (d, ds, fs) entries /\ skipped_dir db d = false
         /\ In fn fs /\ skipped_file db fn = false
         /\ open_read os (os_path_join os d fn) = Some b
         /\ decode_first os b ENCODINGS = Some (text, enc)
         /\ extract_from_text db text name = Some recs /\ In it recs) ->
      exists d ds fs fn b text enc recs,
         In (d, ds, fs) ((dirpath, dirs, files) :: entries)
         /\ skipped_dir db d = false
         /\ In fn fs /\ skipped_file db fn = false
         /\ open_read os (os_path_join os d fn) = Some b
         /\ decode_first os b ENCODINGS = Some (text, enc)
         /\ extract_from_text db text name = Some recs /\ In it recs).
    { intros it (d & ds & fs & fn & b & text & enc & recs & Hd & Hrest).
      exists d, ds, fs, fn, b, text, enc, recs.
      split; [now right | exact Hrest]. }
    destruct (skipped_dir db dirpath) eqn:Es.
    { destruct (IH _ _ H) as (added & -> & Ha). exists added.
      split; [reflexivity|]. intros it Hit.
      destruct (Ha it Hit) as [Hk Hx]. split; [exact Hk | now apply Hlift]. }
    destruct (scan_files db os name dirpath files out) as [mid| |] eqn:Ef;
      try discriminate.
    apply scan_files_origin in Ef as (added1 & -> & Ha1).
    destruct (IH _ _ H) as (added & -> & Ha).
    exists (added1 ++ added). rewrite app_assoc. split; [reflexivity|].
    intros it Hit. apply in_app_or in Hit as [Hit|Hit].
    + destruct (Ha1 it Hit) as (Hk & fn & b & text & enc & recs & Hf & Hrest).
      split; [exact Hk|].
      exists dirpath, dirs, files, fn, b, text, enc, recs.
      split; [now left|]. split; [exact Es|]. split; [exact Hf | exact Hrest].
    + destruct (Ha it Hit) as [Hk Hx]. split; [exact Hk | now apply Hlift].
Qed.

Lemma walk_origin root out :
  walk_and_extract db os root name = Ok out ->
  forall it, In it out -> keep it = true /\ extracted_from db os name root it.
Proof.
  unfold walk_and_extract. intros H it Hit.
  apply walk_dirs_origin in H as (added & -> & Ha). simpl in Hit.
  destruct (Ha it Hit)
    as (Hk & d & ds & fs & fn & b & text & enc & recs
        & Hd & Hs & Hf & Hsf & Ho & Hdec & He & Hin).
  split; [exact Hk|].
  exists (os_path_join os d fn), b, text, enc, recs.
  repeat split; try assumption. now exists d, ds, fs, fn.
Qed.

Lemma walk_never_diverges root :
  walk_and_extract db os root name <> Diverge.
Proof.
  unfold walk_and_extract. intros H.
  pose proof (WalkProps.walk_dirs_result db os name (os_walk os root) [])
    as Hr.
  now rewrite H in Hr.
Qed.

(** The aggregation in the three outcomes. *)
Lemma collect_items_spec : forall roots items,
  match collect_items db os name roots items with
  | Ok res =>
      exists outs,
        Forall2 (fun r out => walk_and_extract db os r name = Ok out)
                roots outs
        /\ res = items ++ concat outs
  | Raise => exists r, In r roots /\ walk_and_extract db os r name = Raise
  | Diverge => False
  end.
Proof.
  induction roots as [|r roots IH]; intros items; simpl.
  - exists []. split; [constructor | now rewrite app_nil_r].
  - destruct (walk_and_extract db os r name) as [found| |] eqn:Ew.
    + specialize (IH (items ++ found)).
      destruct (collect_items db os name roots (items ++ found)).
      * destruct IH as (outs & Hf & ->). exists (found :: outs).
        split; [now constructor | simpl; now rewrite app_assoc].
      * destruct IH as (r' & Hr & Hw). exists r'. split; [now right | exact Hw].
      * exact IH.
    + exists r. split; [now left | exact Ew].
    + now apply walk_never_diverges in Ew.
Qed.

End Origin.

Lemma collect_origin :
  forall (db : ucd) (os : host) (name : str) (roots : list str)
         (items : list item),
  collect_items db os name roots [] = Ok items ->
  forall it, In it items ->
    keep it = true
    /\ exists r, In r roots /\ extracted_from db os name r it.
Proof.
  intros db os name roots items H it Hit.
  pose proof (collect_items_spec db os name roots []) as Hs.
  rewrite H in Hs. destruct Hs as (outs & Hf & ->). simpl in Hit.
  clear H. induction Hf as [|r out rs outs Hw _ IH]; [destruct Hit|].
  simpl in Hit. apply in_app_or in Hit as [Hit|Hit].
  - destruct (walk_origin db os name r out Hw it Hit) as [Hk Hx].
    split; [exact Hk|]. exists r. split; [now left | exact Hx].
  - destruct (IH Hit) as (Hk & r' & Hr & Hx).
    split; [exact Hk|]. exists r'. split; [now right | exact Hx].
Qed.
End OriginProps.


(** X14. No aggregated record is invented: each one has a non-empty field
    and is one of the records of the decoded text of a file opened by the
    walk of one of the roots. *)
Theorem aggregated_records_origin :
  forall (db : ucd) (os : host) (name : str) (roots : list str)
         (items : list item),
  collect_items db os name roots [] = Ok items ->
  forall it, In it items ->
    keep it = true
    /\ exists r, In r roots /\ extracted_from db os name r it.
Proof. exact OriginProps.collect_origin. Qed.

(** X15. The JSONL text that is written for the aggregated records has
    exactly one line for each record, also for a reader that breaks lines
    as [str.splitlines] does: splitting the text gives the JSON texts of the
    records, in order. *)
Theorem jsonl_one_line_per_record :
  forall (db : ucd) (os : host) (name : str) (roots : list str)
         (items : list item),
  collect_items db os name roots [] = Ok items ->
  splitlines (save_jsonl items) = List.map json_dumps items
  /\ length (splitlines (save_jsonl items)) = length items.
Proof.
  intros db os name roots items H.
  assert (Hc : Forall clean_item items).
  { apply Forall_forall. intros it Hit.
    destruct (OriginProps.collect_origin db os name roots items H it Hit)
      as (_ & r & _ & path & b & text & enc & recs & _ & _ & _ & He & Hin).
    pose proof (LineProps.extract_clean db text name recs He) as Hall.
    rewrite Forall_forall in Hall. now apply Hall. }
  rewrite (LineProps.splitlines_jsonl items Hc).
  split; [reflexivity | apply length_map].
Qed.

(** X10. The text returned with latin-1 is the fallback: it is returned
    exactly when each of the six other codecs fails on the bytes, and it
    then holds one code point below 256 for each byte of the file, whatever
    the file is. *)
Theorem latin_1_is_the_fallback :
  forall (os : host) (b : list byte) (text : str),
  (decode_first os b ENCODINGS = Some (text, latin_1)
   <-> (forall e, e <> latin_1 -> decode os e b = None)
       /\ text = latin_1_decode b)
  /\ length (latin_1_decode b) = length b
  /\ Forall (fun c => (c < 256)%N) (latin_1_decode b).
Proof.
  intros os b text. split; [split|split].
  - intros H. unfold ENCODINGS in H. cbn [decode_first] in H.
    destruct (decode os utf_8 b) eqn:E1; [discriminate|].
    destruct (decode os utf_8_sig b) eqn:E2; [discriminate|].
    destruct (decode os utf_16 b) eqn:E3; [discriminate|].
    destruct (decode os utf_16le b) eqn:E4; [discriminate|].
    destruct (decode os utf_16be b) eqn:E5; [discriminate|].
    destruct (decode os gbk b) eqn:E6; [discriminate|].
    simpl in H. injection H as <-. split; [|reflexivity].
    intros e Hne. destruct e; try assumption. congruence.
  - intros [Hall ->]. unfold ENCODINGS. cbn [decode_first].
    rewrite (Hall utf_8), (Hall utf_8_sig), (Hall utf_16), (Hall utf_16le),
            (Hall utf_16be), (Hall gbk) by discriminate.
    reflexivity.
  - apply length_map.
  - unfold latin_1_decode. apply Forall_forall. intros c Hc.
    apply in_map_iff in Hc as (x & <- & _).
    destruct x; vm_compute; reflexivity.
Qed.

Lemma walk_reads_only_scanned_files_witness :
  walk_and_extract basic_latin (mixed_host true) (u ".") (u "Sherry")
  = walk_and_extract basic_latin (mixed_host false) (u ".") (u "Sherry").
Proof.
  apply (walk_reads_only_scanned_files basic_latin (mixed_host true)
           (mixed_host false) (u ".") (u "Sherry")).
  - reflexivity.
  - reflexivity.
  - reflexivity.
  - intros path (d & ds & fs & fn & Hd & _ & Hf & Hs & ->).
    destruct Hd as [Hd|[]]. injection Hd as <- <- <-.
    destruct Hf as [<-|[<-|[]]]; [reflexivity|].
    vm_compute in Hs. discriminate Hs.
Defined.

Lemma slash_paths_never_skipped_witness :
  ~ In BACKSLASH (str_lower basic_latin (u "./.git/objects"))
  /\ skipped_dir basic_latin (u "./.git/objects") = false.
Proof.
  assert (H : ~ In BACKSLASH (str_lower basic_latin (u "./.git/objects"))).
  { vm_compute. intros H.
    repeat (destruct H as [H|H]; [discriminate H|]). exact H. }
  split; [exact H|].
  exact (slash_paths_never_skipped basic_latin (u "./.git/objects") H).
Defined.

Lemma aggregated_records_origin_witness :
  collect_items basic_latin sample_host (u "Sherry") [u "."; u "."] []
  = Ok [{| id := u "A_Sherry1"; orig := u "hi"; trans := u "ho" |};
        {| id := u "A_Sherry1"; orig := u "hi"; trans := u "ho" |}]
  /\ keep {| id := u "A_Sherry1"; orig := u "hi"; trans := u "ho" |} = true.
Proof.
  assert (H : collect_items basic_latin sample_host (u "Sherry")
                [u "."; u "."] []
              = Ok [{| id := u "A_Sherry1"; orig := u "hi"; trans := u "ho" |};
                    {| id := u "A_Sherry1"; orig := u "hi"; trans := u "ho" |}])
    by (vm_compute; reflexivity).
  split; [exact H|].
  exact (proj1 (aggregated_records_origin basic_latin sample_host (u "Sherry")
                  [u "."; u "."] _ H _ (or_introl eq_refl))).
Defined.

Lemma jsonl_one_line_per_record_witness :
  collect_items basic_latin sample_host (u "Sherry") [u "."; u "."] []
  = Ok [{| id := u "A_Sherry1"; orig := u "hi"; trans := u "ho" |};
        {| id := u "A_Sherry1"; orig := u "hi"; trans := u "ho" |}]
  /\ length (splitlines (save_jsonl
       [{| id := u "A_Sherry1"; orig := u "hi"; trans := u "ho" |};
        {| id := u "A_Sherry1"; orig := u "hi"; trans := u "ho" |}])) = 2.
Proof.
  assert (H : collect_items basic_latin sample_host (u "Sherry")
                [u "."; u "."] []
              = Ok [{| id := u "A_Sherry1"; orig := u "hi"; trans := u "ho" |};
                    {| id := u "A_Sherry1"; orig := u "hi"; trans := u "ho" |}])
    by (vm_compute; reflexivity).
  split; [exact H|].
  exact (proj2 (jsonl_one_line_per_record basic_latin sample_host (u "Sherry")
                  [u "."; u "."] _ H)).
Defined.

(** ** Control characters in the JSON text *)

Module ControlProps.
Import PyStr Extractor Props Output.

Lemma hex_digit_printable n : (32 <= hex_digit n)%N.
Proof. unfold hex_digit. destruct (n <? 10)%N; lia. Qed.

Lemma escape_char_printable c : Forall (fun x => (32 <= x)%N) (escape_char c).
Proof.
  unfold escape_char.
  repeat match goal with
         | |- context [if ?b then _ else _] => destruct b eqn:?
         end;
    repeat constructor; try (vm_compute; discriminate);
    try apply hex_digit_printable.
  match goal with H : (c <? 32)%N = false |- _ => now apply N.ltb_ge in H end.
Qed.

Lemma encode_basestring_printable s :
  Forall (fun x => (32 <= x)%N) (encode_basestring s).
Proof.
  unfold encode_basestring. constructor; [vm_compute; discriminate|].
  apply Forall_app. split; [|repeat constructor; vm_compute; discriminate].
  induction s as [|c s IH]; simpl; [constructor|].
  apply Forall_app. split; [apply escape_char_printable | exact IH].
Qed.

Lemma json_dumps_printable it : Forall (fun x => (32 <= x)%N) (json_dumps it).
Proof.
  unfold json_dumps.
  repeat (apply Forall_app; split);
    try apply encode_basestring_printable;
    repeat constructor; vm_compute; discriminate.
Qed.

Lemma count_LF_printable s :
  Forall (fun x => (32 <= x)%N) s -> count_occ N.eq_dec s LF = 0.
Proof.
  intros H. apply count_occ_not_In. intros Hin.
  rewrite Forall_forall in H. specialize (H LF Hin). unfold LF in H. lia.
Qed.
End ControlProps.

(** X16. The JSON text of a record holds no control character, whatever
    the record holds: tabs, line feeds and the other characters below
    U+0020 are escaped. So every line feed of the JSONL text ends a record,
    and there are as many as there are records. *)
Theorem jsonl_line_feeds_end_records :
  forall items : list item,
  Forall (fun it => Forall (fun c => (32 <= c)%N) (json_dumps it)) items
  /\ count_occ N.eq_dec (save_jsonl items) LF = length items.
Proof.
  intros items. split.
  - apply Forall_forall. intros it _. apply ControlProps.json_dumps_printable.
  - induction items as [|it items IH]; [reflexivity|].
    change (save_jsonl (it :: items))
      with ((json_dumps it ++ [LF]) ++ save_jsonl items).
    rewrite !count_occ_app. unfold codepoint.
    rewrite (ControlProps.count_LF_printable _
               (ControlProps.json_dumps_printable it)).
    simpl. f_equal. exact IH.
Qed.
